(** * lchat: the line chat front end (lchat.c) and its line editor (slackline.h)

    A shallow embedding of the parts of lchat that its specification talks
    about: the configuration readers, the alert predicate, the line output and
    the render/event loop of [main], over a small model of the operating
    system (files, descriptors, child processes, the terminal).

    C integers are [Z]; [size_t] arithmetic wraps at 2^64 and is written out.
    Byte strings are [list Z] with every element in 0..255. *)

From stdpp Require Import base numbers option list strings gmap pretty.

Local Open Scope Z_scope.

(** ** C basics *)

(** [size_t] is 64 bits wide on the platforms lchat targets. *)
Definition SIZE_MOD : Z := 2 ^ 64.

Definition size_add (a b : Z) : Z := (a + b) `mod` SIZE_MOD.

(** Status values handed to [exit] (stdlib.h). *)
Inductive exit_status := EXIT_SUCCESS | EXIT_FAILURE.

(** Event bits of poll.h. *)
Definition POLLIN : Z := 1.
Definition POLLHUP : Z := 16.

Definition flag_set (revents flag : Z) : bool :=
  negb (Z.land revents flag =? 0).

(** The bytes of a Rocq string literal. *)
Definition bytes_of_string (s : string) : list Z :=
  (λ a, Z.of_N (Ascii.N_of_ascii a)) <$> String.list_ascii_of_string s.

(** What printf's [%zu] prints. *)
Definition decimal (n : Z) : list Z := bytes_of_string (pretty (Z.to_N n)).

(** The string a [char *] points to: the bytes before the first NUL of the
    array.  An array without NUL has no string value (reading it runs off the
    end of the object). *)
Fixpoint cstr (a : list Z) : option (list Z) :=
  match a with
  | [] => None
  | b :: a' => if b =? 0 then Some [] else (b ::.) <$> cstr a'
  end.

(** [a[i] = v] on an array; outside the array the store is undefined. *)
Definition store (a : list Z) (i v : Z) : option (list Z) :=
  if (0 <=? i) && (i <? Z.of_nat (length a))
  then Some (<[Z.to_nat i := v]> a)
  else None.

(** The first [n] bytes of an array, as [write(fd, a, n)] reads them. *)
Definition load (a : list Z) (n : Z) : option (list Z) :=
  if (0 <=? n) && (n <=? Z.of_nat (length a))
  then Some (take (Z.to_nat n) a)
  else None.

(** ** slackline.h *)

Inductive esc_seq := ESC_NONE | ESC | ESC_BRACKET.

(** [struct slackline].  The pointers [ptr] and [last] of the header point
    into [buf] at the cursor and at the end of the string; they carry the same
    positions as [bcur] and [blen] and are left to those offsets. *)
Record slackline := Slackline {
  buf : list Z;        (* the bufsize bytes buf points to *)
  bufsize : Z;
  bcur : Z;            (* first byte of the rune of the cursor *)
  blen : Z;            (* amount of bytes of current string *)
  rcur : Z;            (* cursor *)
  rlen : Z;            (* amount of runes *)
  esc : esc_seq;
  ubuf : list Z;       (* char ubuf[6] *)
  ubuf_len : Z
}.

(** Modelled from the spec: lchat.c reads the members [len] and [cur], which
    this slackline.h does not declare.  The spec names what the loop reads
    there: the byte length (byteLen) for [len], in the line output and in the
    wrap arithmetic, and the rune cursor (runeCursor) for [cur]. *)
Definition len (sl : slackline) : Z := blen sl.
Definition cur (sl : slackline) : Z := rcur sl.

Definition set_buf (sl : slackline) (b : list Z) : slackline :=
  Slackline b (bufsize sl) (bcur sl) (blen sl) (rcur sl) (rlen sl)
            (esc sl) (ubuf sl) (ubuf_len sl).

Definition set_esc (sl : slackline) (e : esc_seq) : slackline :=
  Slackline (buf sl) (bufsize sl) (bcur sl) (blen sl) (rcur sl) (rlen sl)
            e (ubuf sl) (ubuf_len sl).

Definition set_ubuf (sl : slackline) (u : list Z) (n : Z) : slackline :=
  Slackline (buf sl) (bufsize sl) (bcur sl) (blen sl) (rcur sl) (rlen sl)
            (esc sl) u n.

Definition set_cursor (sl : slackline) (b r : Z) : slackline :=
  Slackline (buf sl) (bufsize sl) b (blen sl) r (rlen sl)
            (esc sl) (ubuf sl) (ubuf_len sl).

(** *** UTF-8 byte classes *)

(** A continuation byte is 10xxxxxx. *)
Definition is_cont (b : Z) : bool := Z.shiftr b 6 =? 2.

(** Modelled from the spec: the length of the sequence a leading byte
    announces, "1 byte for ASCII, else the count implied by the leading
    byte's continuation-count tag".  The spec is silent on bytes that lead no
    sequence (10xxxxxx, 11111xxx); the model takes them as a unit of one
    byte. *)
Definition utf8_len (b : Z) : Z :=
  if Z.shiftr b 7 =? 0 then 1
  else if Z.shiftr b 5 =? 6 then 2
  else if Z.shiftr b 4 =? 14 then 3
  else if Z.shiftr b 3 =? 30 then 4
  else 1.

(** The UTF-8 encoding of a Unicode scalar value: 0xxxxxxx, or a leading
    byte 110xxxxx, 1110xxxx or 11110xxx and continuation bytes 10xxxxxx, six
    bits each. *)
Definition utf8_encode (cp : Z) : list Z :=
  if cp <? 128 then [cp]
  else if cp <? 2048 then
    [192 + cp `div` 64; 128 + cp `mod` 64]
  else if cp <? 65536 then
    [224 + cp `div` 4096; 128 + (cp `div` 64) `mod` 64; 128 + cp `mod` 64]
  else
    [240 + cp `div` 262144; 128 + (cp `div` 4096) `mod` 64;
     128 + (cp `div` 64) `mod` 64; 128 + cp `mod` 64].

Definition scalar_value (cp : Z) : Prop :=
  0 <= cp < 55296 ∨ 57344 <= cp < 1114112.

(** The start of the rune that ends at byte [p]: walk back over
    continuation bytes. *)
Fixpoint rune_back (b : list Z) (p : nat) : nat :=
  match p with
  | O => O
  | S p' => if is_cont (default 0 (b !! p)) then rune_back b p' else p
  end.

(** The start of the rune after the one at byte [p]: step over the leading
    byte and then over at most [fuel] continuation bytes below [n]. *)
Fixpoint rune_fwd (b : list Z) (n : nat) (fuel : nat) (p : nat) : nat :=
  match fuel with
  | O => p
  | S fuel' =>
      if decide (p < n)%nat
      then if is_cont (default 0 (b !! p)) then rune_fwd b n fuel' (S p) else p
      else p
  end.

(** ** The operating system, as far as lchat meets it *)

Record file := File {
  f_data : list Z;
  f_readable : bool;
  f_writable : bool
}.

(** What the process did to files and children, oldest first. *)
Inductive event :=
| EvOpen (path : string) (fd : Z)
| EvWrite (fd : Z) (data : list Z)
| EvClose (fd : Z)
| EvRun (cmd : string) (stdin : list Z) (status : Z).

Record world := World {
  w_fs : gmap string file;             (* regular files by path *)
  w_fds : gmap Z (string * nat);       (* open files: path and read offset *)
  w_procs : gmap Z (string * list Z);  (* children fed through a pipe:
                                          command and bytes sent so far *)
  w_tty : list Z;                      (* bytes sent to the terminal *)
  w_trace : list event
}.

(** How a C computation ends: with a value, in [exit] (or a return from
    [main]), or in undefined behaviour. *)
Inductive res (A : Type) :=
| Ret (a : A)
| Exit (s : exit_status)
| Undef.
Arguments Ret {A} a.
Arguments Exit {A} s.
Arguments Undef {A}.

Definition io (A : Type) : Type := world → world * res A.

#[global] Instance io_ret : MRet io := λ A a w, (w, Ret a).

#[global] Instance io_bind : MBind io := λ A B f m w,
  match m w with
  | (w', Ret a) => f a w'
  | (w', Exit s) => (w', Exit s)
  | (w', Undef) => (w', Undef)
  end.

(** [exit(s)], also reached through err(3) and errx(3); their message on
    stderr is not modelled. *)
Definition exit {A} (s : exit_status) : io A := λ w, (w, Exit s).

(** A step that is undefined behaviour when it has no value. *)
Definition must {A} (o : option A) : io A := λ w,
  match o with
  | Some a => (w, Ret a)
  | None => (w, Undef)
  end.

(** The lowest number from 3 on that is not in use (0, 1 and 2 are the
    standard streams). *)
Definition fresh_key {V} (m : gmap Z V) : Z :=
  default 3 (head (filter (λ n, ¬ is_Some (m !! n))
                          (seqZ 3 (Z.of_nat (size m) + 1)))).

(** stdout is unbuffered ([setbuf(stdout, NULL)]): fputs, printf and putchar
    reach the terminal at once; the loop ignores their results. *)
Definition emit (w : world) (bs : list Z) : world :=
  World (w_fs w) (w_fds w) (w_procs w) (w_tty w ++ bs) (w_trace w).

Definition put (bs : list Z) : io () := λ w, (emit w bs, Ret ()).

(** [access(path, R_OK)] *)
Definition sys_access (path : string) : io Z := λ w,
  (w, Ret (match w_fs w !! path with
           | Some f => if f_readable f then 0 else -1
           | None => -1
           end)).

(** A file [access(path, R_OK)] refuses: there is none, or it may not be
    read. *)
Definition unreadable (w : world) (path : string) : Prop :=
  match w_fs w !! path with
  | Some f => f_readable f = false
  | None => True
  end.

(** [open(path, O_WRONLY|O_APPEND)]: no O_CREAT, the file has to exist. *)
Definition sys_open_append (path : string) : io Z := λ w,
  match w_fs w !! path with
  | Some f =>
      if f_writable f then
        let fd := fresh_key (w_fds w) in
        (World (w_fs w) (<[fd := (path, 0%nat)]> (w_fds w)) (w_procs w)
               (w_tty w) (w_trace w ++ [EvOpen path fd]), Ret fd)
      else (w, Ret (-1))
  | None => (w, Ret (-1))
  end.

(** [write(fd, data, n)]: descriptor 1 is the terminal; a file opened for
    appending grows at its end. *)
Definition sys_write (fd : Z) (data : list Z) : io Z := λ w,
  if fd =? 1 then (emit w data, Ret (Z.of_nat (length data)))
  else
    match w_fds w !! fd with
    | Some (path, _) =>
        match w_fs w !! path with
        | Some f =>
            (World (<[path := File (f_data f ++ data) (f_readable f)
                                   (f_writable f)]> (w_fs w))
                   (w_fds w) (w_procs w) (w_tty w)
                   (w_trace w ++ [EvWrite fd data]),
             Ret (Z.of_nat (length data)))
        | None => (w, Ret (-1))
        end
    | None => (w, Ret (-1))
    end.

(** [close(fd)] *)
Definition sys_close (fd : Z) : io Z := λ w,
  match w_fds w !! fd with
  | Some _ =>
      (World (w_fs w) (delete fd (w_fds w)) (w_procs w) (w_tty w)
             (w_trace w ++ [EvClose fd]), Ret 0)
  | None => (w, Ret (-1))
  end.

(** [fopen(path, "r")]: the stream, or NULL. *)
Definition sys_fopen (path : string) : io (option Z) := λ w,
  match w_fs w !! path with
  | Some f =>
      if f_readable f then
        let fh := fresh_key (w_fds w) in
        (World (w_fs w) (<[fh := (path, 0%nat)]> (w_fds w)) (w_procs w)
               (w_tty w) (w_trace w ++ [EvOpen path fh]), Ret (Some fh))
      else (w, Ret None)
  | None => (w, Ret None)
  end.

(** At most [n] bytes of [d], through the first newline. *)
Fixpoint get_line (n : nat) (d : list Z) : list Z :=
  match n, d with
  | S n', b :: d' => b :: (if b =? 10 then [] else get_line n' d')
  | _, _ => []
  end.

(** Put a string into the array [b], followed by its NUL. *)
Definition with_text (b : list Z) (t : list Z) : list Z :=
  t ++ 0 :: drop (S (length t)) b.

(** [fgets(a, size, fh)]: the array after the call, or NULL when the stream
    is at its end and no byte was read. *)
Definition sys_fgets (a : list Z) (size : Z) (fh : Z)
  : io (option (list Z)) := λ w,
  match w_fds w !! fh with
  | Some (path, off) =>
      match w_fs w !! path with
      | Some f =>
          let l := get_line (Z.to_nat (size - 1)) (drop off (f_data f)) in
          match l with
          | [] => (w, Ret None)
          | _ =>
              (World (w_fs w) (<[fh := (path, (off + length l)%nat)]> (w_fds w))
                     (w_procs w) (w_tty w) (w_trace w),
               Ret (Some (with_text a l)))
          end
      | None => (w, Ret None)
      end
  | None => (w, Ret None)
  end.

(** [fclose(fh)]: 0, or EOF (-1). *)
Definition sys_fclose (fh : Z) : io Z := sys_close fh.

(** [strchr(a, c)] for a byte [c] other than NUL: where the string in [a]
    has its first [c]. *)
Fixpoint strchr (a : list Z) (c : Z) : option nat :=
  match a with
  | [] => None
  | b :: a' =>
      if b =? c then Some O
      else if b =? 0 then None
      else S <$> strchr a' c
  end.

(** [popen(cmd, "w")]: the stream to the child's standard input. *)
Definition sys_popen (cmd : string) : io (option Z) := λ w,
  let fh := fresh_key (w_procs w) in
  (World (w_fs w) (w_fds w) (<[fh := (cmd, [])]> (w_procs w)) (w_tty w)
         (w_trace w), Ret (Some fh)).

(** [fputs(s, fh)] on such a stream: 0, or EOF (-1). *)
Definition sys_fputs_pipe (s : list Z) (fh : Z) : io Z := λ w,
  match w_procs w !! fh with
  | Some (cmd, sent) =>
      (World (w_fs w) (w_fds w) (<[fh := (cmd, sent ++ s)]> (w_procs w))
             (w_tty w) (w_trace w), Ret 0)
  | None => (w, Ret (-1))
  end.

Section Lchat.

(** BUFSIZ of stdio.h, at least 256 by the C standard. *)
Variable BUFSIZ : Z.
Hypothesis BUFSIZ_min : 256 <= BUFSIZ.

(** The allocator: whether a request for [n] bytes is granted. *)
Variable alloc_ok : Z → bool.

(** ** The line edit engine (slackline.c is not part of the sources) *)

(** Modelled from the spec: [sl_init] of slackline.c, "a fresh EditBuffer with
    all lengths zero, escapeState = Idle, pendingLen = 0".  The initial
    capacity is not given; the model takes BUFSIZ bytes. *)
Definition sl_init : slackline :=
  Slackline (replicate (Z.to_nat BUFSIZ) 0) BUFSIZ 0 0 0 0 ESC_NONE
            (replicate 6 0) 0.

(** Modelled from the spec: [sl_reset] of slackline.c, "sets all lengths and
    cursor positions to zero and escapeState = Idle without releasing backing
    storage".  The sentinel the output relies on moves to the first byte. *)
Definition sl_reset (sl : slackline) : slackline :=
  Slackline (<[0%nat := 0]> (buf sl)) (bufsize sl) 0 0 0 0 ESC_NONE
            (ubuf sl) 0.

(** The bytes of the current line. *)
Definition text (sl : slackline) : list Z := take (Z.to_nat (blen sl)) (buf sl).

(** Modelled from the spec: growth of the backing storage when [need] bytes
    do not fit; a refused request is the fault of [sl_keystroke].  The policy
    (doubling, or what is needed when that is more) is the model's. *)
Definition sl_grow (sl : slackline) (need : Z) : option (list Z * Z) :=
  if need <=? bufsize sl then Some (buf sl, bufsize sl)
  else
    let cap := Z.max (2 * bufsize sl) need in
    if alloc_ok cap
    then Some (buf sl ++ replicate (Z.to_nat (cap - bufsize sl)) 0, cap)
    else None.

(** Modelled from the spec: "splice the assembled codepoint's bytes into bytes
    at byteCursor (shifting trailing bytes right), advance
    byteCursor/byteLen by the codepoint's byte length and runeCursor/runeLen
    by one, and clear pendingLen". *)
Definition sl_insert (sl : slackline) (u : list Z) : option slackline :=
  let k := Z.of_nat (length u) in
  '(b, cap) ← sl_grow sl (blen sl + k + 1);
  let c := Z.to_nat (bcur sl) in
  let t := take c (text sl) ++ u ++ drop c (text sl) in
  Some (Slackline (with_text b t) cap (bcur sl + k) (blen sl + k)
                  (rcur sl + 1) (rlen sl + 1) (esc sl) (ubuf sl) 0).

(** Modelled from the spec: "if runeCursor > 0, remove the codepoint
    immediately left of the cursor: walk backward from byteCursor to find the
    start of the preceding UTF-8 codepoint, shift all bytes from byteCursor
    onward left by that codepoint's byte length, decrement
    byteLen/byteCursor accordingly and runeLen/runeCursor by one.  No-op at
    start of line." *)
Definition sl_backspace (sl : slackline) : slackline :=
  if rcur sl <=? 0 then sl
  else
    let c := Z.to_nat (bcur sl) in
    let s := rune_back (buf sl) (pred c) in
    let w := bcur sl - Z.of_nat s in
    let t := take s (text sl) ++ drop c (text sl) in
    Slackline (with_text (buf sl) t) (bufsize sl) (bcur sl - w) (blen sl - w)
              (rcur sl - 1) (rlen sl - 1) (esc sl) (ubuf sl) (ubuf_len sl).

(** Cursor and edit commands of an escape sequence. *)
Definition sl_left (sl : slackline) : slackline :=
  if rcur sl <=? 0 then sl
  else set_cursor sl (Z.of_nat (rune_back (buf sl) (pred (Z.to_nat (bcur sl)))))
                  (rcur sl - 1).

Definition sl_right (sl : slackline) : slackline :=
  if rlen sl <=? rcur sl then sl
  else set_cursor sl
         (Z.of_nat (rune_fwd (buf sl) (Z.to_nat (blen sl)) 5
                             (S (Z.to_nat (bcur sl)))))
         (rcur sl + 1).

Definition sl_home (sl : slackline) : slackline := set_cursor sl 0 0.

Definition sl_end (sl : slackline) : slackline :=
  set_cursor sl (blen sl) (rlen sl).

Definition sl_delete (sl : slackline) : slackline :=
  if rlen sl <=? rcur sl then sl
  else
    let c := Z.to_nat (bcur sl) in
    let e := rune_fwd (buf sl) (Z.to_nat (blen sl)) 5 (S c) in
    let t := take c (text sl) ++ drop e (text sl) in
    Slackline (with_text (buf sl) t) (bufsize sl) (bcur sl)
              (blen sl - (Z.of_nat e - bcur sl))
              (rcur sl) (rlen sl - 1) (esc sl) (ubuf sl) (ubuf_len sl).

(** Modelled from the spec: the command byte after ESC [.  The spec leaves
    the codes open ("the terminal's standard single-byte codes"); the model
    takes the ECMA-48 and xterm final bytes C (right), D (left), H (home),
    F (end) and P (delete character).  Other codes are discarded. *)
Definition sl_command (sl : slackline) (b : Z) : slackline :=
  if b =? 67 then sl_right sl
  else if b =? 68 then sl_left sl
  else if b =? 72 then sl_home sl
  else if b =? 70 then sl_end sl
  else if b =? 80 then sl_delete sl
  else sl.

(** Modelled from the spec: a byte "treated as the next byte of a
    UTF-8-encoded codepoint".  A byte that is no continuation while a
    sequence is pending drops the pending bytes and leads a new sequence; the
    sequence is spliced in when the length its leading byte announces is
    reached. *)
Definition sl_compose (sl : slackline) (b : Z) : option slackline :=
  let n0 := if (0 <? ubuf_len sl) && negb (is_cont b) then 0 else ubuf_len sl in
  let u := <[Z.to_nat n0 := b]> (ubuf sl) in
  let n := n0 + 1 in
  if n <? utf8_len (default 0 (u !! 0%nat))
  then Some (set_ubuf sl u n)
  else sl_insert (set_ubuf sl u n) (take (Z.to_nat n) u).

(** Modelled from the spec: [sl_keystroke] of slackline.c, section 4.1 of
    the spec.  [None] is the fault (-1 in C): a cursor beyond its length on
    entry, or a refused growth of the buffer.  The key is an int; the engine
    works on its byte value.  Backspace is taken as both BS (8) and DEL
    (127). *)
Definition sl_keystroke (sl : slackline) (key : Z) : option slackline :=
  if (rlen sl <? rcur sl) || (blen sl <? bcur sl) then None
  else
    let b := key `mod` 256 in
    match esc sl with
    | ESC_NONE =>
        if b =? 27 then Some (set_esc sl ESC)
        else if (b =? 8) || (b =? 127) then Some (sl_backspace sl)
        else sl_compose sl b
    | ESC =>
        if b =? 91 then Some (set_esc sl ESC_BRACKET)
        else sl_compose (set_esc sl ESC_NONE) b
    | ESC_BRACKET => Some (set_esc (sl_command sl b) ESC_NONE)
    end.

(** Keys fed one at a time, as the loop does; the first fault stops. *)
Fixpoint sl_feed (sl : slackline) (keys : list Z) : option slackline :=
  match keys with
  | [] => Some sl
  | k :: keys' => sl' ← sl_keystroke sl k; sl_feed sl' keys'
  end.

(** ** lchat.c *)

(** A child process: the status [pclose] reports for the command line run
    by the shell, given the files and what was sent to its standard input. *)
Variable shell : string → gmap string file → list Z → Z.

(** [pclose(fh)] waits for the child. *)
Definition sys_pclose (fh : Z) : io Z := λ w,
  match w_procs w !! fh with
  | Some (cmd, sent) =>
      let status := shell cmd (w_fs w) sent in
      (World (w_fs w) (w_fds w) (delete fh (w_procs w)) (w_tty w)
             (w_trace w ++ [EvRun cmd sent status]), Ret status)
  | None => (w, Ret (-1))
  end.

(** What snprintf leaves in an array of BUFSIZ bytes. *)
Definition snprintf_buf (s : string) : string :=
  String.substring 0 (Z.to_nat (BUFSIZ - 1)) s.

(** A local [char buf[BUFSIZ]].  Its bytes are indeterminate until written;
    the functions below only read what they have written. *)
Definition stack_buf : list Z := replicate (Z.to_nat BUFSIZ) 0.

(** [read_file_line], lchat.c lines 54 to 81: the first line of a file, or
    NULL when the file cannot be read. *)
Definition read_file_line (file : string) : io (option (list Z)) :=
  a ← sys_access file;
  if a =? -1 then mret None
  else
    fh ← sys_fopen file;
    match fh with
    | None => exit EXIT_FAILURE
    | Some fh =>
        g ← sys_fgets stack_buf BUFSIZ fh;
        match g with
        | None => exit EXIT_FAILURE
        | Some b =>
            c ← sys_fclose fh;
            if c =? -1 then exit EXIT_FAILURE
            else
              (* delete new line *)
              let b' := match strchr b 10 with
                        | Some i => <[i := 0]> b
                        | None => b
                        end in
              line ← must (cstr b');
              if alloc_ok (Z.of_nat (length line) + 1)
              then mret (Some line)
              else exit EXIT_FAILURE
        end
    end.

(** [bell_match], lchat.c lines 83 to 104. *)
Definition bell_match (str : list Z) (regex_file : string) : io bool :=
  a ← sys_access regex_file;
  if a =? -1 then mret true
  else
    let cmd := snprintf_buf ("exec grep -qf " +:+ regex_file) in
    fh ← sys_popen cmd;
    match fh with
    | None => exit EXIT_FAILURE
    | Some fh =>
        s ← must (cstr str);
        r ← sys_fputs_pipe s fh;
        if r =? -1 then exit EXIT_FAILURE
        else
          st ← sys_pclose fh;
          if st =? 0 then mret true else mret false
    end.

(** [line_output], lchat.c lines 106 to 122.  The struct is changed in
    place (the NUL after the line becomes a newline), so it is returned. *)
Definition line_output (sl : slackline) (file : string) : io slackline :=
  fd ← sys_open_append file;
  if fd =? -1 then exit EXIT_FAILURE
  else
    (* replace NUL-terminator with newline as line separator for file *)
    b ← must (store (buf sl) (len sl) 10);
    data ← must (load b (size_add (len sl) 1));
    r ← sys_write fd data;
    if r =? -1 then exit EXIT_FAILURE
    else
      c ← sys_close fd;
      if c =? -1 then exit EXIT_FAILURE
      else mret (set_buf sl b).

(** The locals of [main] that the loop reads. *)
Record config := Config {
  empty_line : bool;
  bell_flag : bool;
  bell_file : string;
  prompt : list Z;
  prompt_len : Z;
  in_file : string
}.

(** [main], lines 138 to 157 and 206 to 208, for a command line without
    options: the configuration files and the defaults.  The second
    component is the title, NULL when there is none. *)
Definition main_config : io (config * option (list Z)) :=
  p ← read_file_line ".prompt";
  title ← read_file_line ".title";
  (* set default prompt *)
  let p' := match p with
            | None => bytes_of_string ">"
            | Some l => l
            end in
  mret (Config false true ".bellmatch" p' (Z.of_nat (length p')) "./in",
        title).

(** What one wakeup of poll brings: the revents of the keyboard and of the
    feed, the byte getchar returns, what read finds in the feed (NULL for
    -1), and the terminal width of [winsize] at that time. *)
Record input := Input {
  in_revents0 : Z;
  in_revents1 : Z;
  in_key : Z;
  in_feed : option (list Z);
  in_ws_col : Z
}.

Record loop_state := LoopState {
  st_sl : slackline;
  st_loverhang : Z
}.

Definition CLEAR_LINE : list Z := [13; 27] ++ bytes_of_string "[2K".

(** Lines 277 to 284: move back over the wrapped rows and erase the line. *)
Definition loop_preamble (loverhang : Z) : io () :=
  (if 0 <? loverhang
   then put CLEAR_LINE;;
        put ([27] ++ bytes_of_string "[" ++ decimal loverhang
                  ++ bytes_of_string "A")
   else mret ());;
  put CLEAR_LINE.

(** Where the keyboard part leaves the iteration: at the statement after
    it, or at the label [out]. *)
Inductive key_ctl :=
| Fall (sl : slackline)
| Goto_out (sl : slackline).

(** Lines 287 to 297. *)
Definition handle_keyboard (cfg : config) (inp : input) (sl : slackline)
  : io key_ctl :=
  if flag_set (in_revents0 inp) POLLIN then
    let c := in_key inp in
    k ← (if c =? 13 then
           if (len sl =? 0) && negb (empty_line cfg) then mret (Goto_out sl)
           else
             sl1 ← line_output sl (in_file cfg);
             mret (Fall (sl_reset sl1))
         else mret (Fall sl));
    match k with
    | Goto_out sl' => mret (Goto_out sl')
    | Fall sl' =>
        match sl_keystroke sl' c with
        | None => exit EXIT_FAILURE
        | Some sl'' => mret (Fall sl'')
        end
    end
  else mret (Fall sl).

(** Line 318: ring the bell on external input. *)
Definition alert (cfg : config) (b : list Z) : io () :=
  if bell_flag cfg then
    m ← bell_match b (bell_file cfg);
    if (m : bool) then put [7] else mret ()
  else mret ().

(** Line 306: the array after [read] has stored what it got. *)
Definition read_into (a : list Z) (got : list Z) : list Z :=
  got ++ drop (length got) a.

(** Lines 304 to 320. *)
Definition handle_feed (cfg : config) (inp : input) : io () :=
  if flag_set (in_revents1 inp) POLLIN then
    match in_feed inp with
    | None => exit EXIT_FAILURE            (* n == -1 *)
    | Some avail =>
        let got := take (Z.to_nat BUFSIZ) avail in
        let n := Z.of_nat (length got) in
        if n =? 0 then exit EXIT_FAILURE   (* tail command exited *)
        else
          let b := read_into stack_buf got in
          out ← must (load b n);
          r ← sys_write 1 out;
          if r =? -1 then exit EXIT_FAILURE
          else
            (* terminate the input buffer with NUL *)
            b' ← must (store b (if n =? BUFSIZ then n - 1 else n) 0);
            alert cfg b'
    end
  else mret ().

(** Lines 321 to 339: show the line, note the wrapped rows, place the
    cursor.  The result is the new [loverhang]. *)
Definition redraw (cfg : config) (inp : input) (sl : slackline) : io Z :=
  put (prompt cfg);;
  s ← must (cstr (buf sl));
  put s;;
  let total := size_add (prompt_len cfg) (len sl) in
  if in_ws_col inp =? 0 then must None
  else
    let loverhang := total `div` in_ws_col inp in
    (if (0 <? total) && (total `mod` in_ws_col inp =? 0)
     then put [10] else mret ());;
    (if cur sl <? len sl then
       put [13];;
       (* HACK: because \033[0C does the same as \033[1C *)
       if 0 <? size_add (cur sl) (prompt_len cfg)
       then put ([27] ++ bytes_of_string "["
                      ++ decimal (size_add (cur sl) (prompt_len cfg))
                      ++ bytes_of_string "C")
       else mret ()
     else mret ());;
    mret loverhang.

(** How an iteration of [for (;;)] ends. *)
Inductive ctl := Next | Break.

(** Lines 275 to 339: one iteration. *)
Definition iteration (cfg : config) (inp : input) (st : loop_state)
  : io (ctl * loop_state) :=
  loop_preamble (st_loverhang st);;
  k ← handle_keyboard cfg inp (st_sl st);
  match k with
  | Goto_out sl =>
      lo ← redraw cfg inp sl;
      mret (Next, LoopState sl lo)
  | Fall sl =>
      (* handle tail command error and its broken pipe *)
      if flag_set (in_revents1 inp) POLLHUP
      then mret (Break, LoopState sl (st_loverhang st))
      else
        handle_feed cfg inp;;
        lo ← redraw cfg inp sl;
        mret (Next, LoopState sl lo)
  end.

(** Lines 274 to 341: the loop over the wakeups the environment brings.
    When they are used up the process waits in poll, with the state
    returned; a [break] leads to [return EXIT_SUCCESS].  The handler that
    restores the terminal at exit is not modelled. *)
Fixpoint main_loop (cfg : config) (ins : list input) (st : loop_state)
  : io loop_state :=
  match ins with
  | [] => mret st
  | inp :: ins' =>
      r ← iteration cfg inp st;
      match r with
      | (Next, st') => main_loop cfg ins' st'
      | (Break, _) => exit EXIT_SUCCESS
      end
  end.

(** ** The start of [main], the terminal and the signals *)

(** The number of SIGWINCH and the flag bits and [c_cc] slots of termios.h:
    the values of Linux. *)
Definition SIGWINCH : Z := 28.

Definition BRKINT : Z := 2.
Definition PARMRK : Z := 8.
Definition ISTRIP : Z := 32.
Definition INLCR : Z := 64.
Definition IGNCR : Z := 128.
Definition ICRNL : Z := 256.
Definition IXON : Z := 1024.
Definition IMAXBEL : Z := 8192.

Definition CSIZE : Z := 48.
Definition CS8 : Z := 48.
Definition PARENB : Z := 256.

Definition ISIG : Z := 1.
Definition ICANON : Z := 2.
Definition ECHO : Z := 8.
Definition ECHONL : Z := 64.
Definition IEXTEN : Z := 32768.

Definition VTIME : nat := 5.
Definition VMIN : nat := 6.

(** [struct termios] and, as far as lchat reads it, [struct winsize]. *)
Record termios := Termios {
  c_iflag : Z;
  c_oflag : Z;
  c_cflag : Z;
  c_lflag : Z;
  c_cc : list Z
}.

Record winsize_t := Winsize {
  ws_row : Z;
  ws_col : Z
}.

(** The process and its surroundings beyond the files: the terminals behind
    the descriptors 0 and 1 (none when the descriptor is no terminal), the
    environment, and the globals of lchat.c. *)
Record machine := Machine {
  m_world : world;
  m_stdin : option termios;     (* attributes of the terminal on stdin *)
  m_stdout : option winsize_t;  (* size of the terminal on stdout *)
  m_TERM : option string;       (* getenv("TERM") *)
  m_filter : bool;              (* access(".filter", X_OK) == 0 *)
  origin_term : termios;        (* struct termios origin_term *)
  winsize : winsize_t;          (* struct winsize winsize *)
  m_atexit : bool               (* exit_handler is registered *)
}.

Definition set_world (s : machine) (w : world) : machine :=
  Machine w (m_stdin s) (m_stdout s) (m_TERM s) (m_filter s)
          (origin_term s) (winsize s) (m_atexit s).

Definition set_stdin (s : machine) (t : option termios) : machine :=
  Machine (m_world s) t (m_stdout s) (m_TERM s) (m_filter s)
          (origin_term s) (winsize s) (m_atexit s).

Definition set_origin_term (s : machine) (t : termios) : machine :=
  Machine (m_world s) (m_stdin s) (m_stdout s) (m_TERM s) (m_filter s)
          t (winsize s) (m_atexit s).

Definition set_winsize (s : machine) (z : winsize_t) : machine :=
  Machine (m_world s) (m_stdin s) (m_stdout s) (m_TERM s) (m_filter s)
          (origin_term s) z (m_atexit s).

Definition set_atexit (s : machine) (b : bool) : machine :=
  Machine (m_world s) (m_stdin s) (m_stdout s) (m_TERM s) (m_filter s)
          (origin_term s) (winsize s) b.

Definition proc (A : Type) : Type := machine → machine * res A.

#[global] Instance proc_ret : MRet proc := λ A a s, (s, Ret a).

#[global] Instance proc_bind : MBind proc := λ A B f m s,
  match m s with
  | (s', Ret a) => f a s'
  | (s', Exit st) => (s', Exit st)
  | (s', Undef) => (s', Undef)
  end.

(** A computation on files and terminal output, within the process. *)
Definition lift {A} (m : io A) : proc A := λ s,
  let '(w', r) := m (m_world s) in (set_world s w', r).

Definition proc_exit {A} (st : exit_status) : proc A := λ s, (s, Exit st).

Definition proc_undef {A} : proc A := λ s, (s, Undef).

(** [isatty(STDIN_FILENO)], [tcgetattr(STDIN_FILENO, &t)] (NULL for -1),
    [tcsetattr(STDIN_FILENO, TCSANOW, &t)], [atexit(exit_handler)],
    [getenv("TERM")] and [access(".filter", X_OK)]. *)
Definition sys_isatty : proc Z := λ s,
  (s, Ret (match m_stdin s with Some _ => 1 | None => 0 end)).

Definition sys_tcgetattr : proc (option termios) := λ s,
  (s, Ret (m_stdin s)).

Definition sys_tcsetattr (t : termios) : proc Z := λ s,
  match m_stdin s with
  | Some _ => (set_stdin s (Some t), Ret 0)
  | None => (s, Ret (-1))
  end.

Definition sys_atexit : proc Z := λ s, (set_atexit s true, Ret 0).

Definition sys_getenv_TERM : proc (option string) := λ s,
  (s, Ret (m_TERM s)).

Definition sys_access_filter : proc Z := λ s,
  (s, Ret (if m_filter s then 0 else -1)).

(** [sigwinch], lchat.c lines 40 to 45.  The result of ioctl is ignored:
    when stdout is no terminal, [winsize] stays as it is. *)
Definition sigwinch (sig : Z) : proc () := λ s,
  if sig =? SIGWINCH then
    match m_stdout s with
    | Some z => (set_winsize s z, Ret ())
    | None => (s, Ret ())
    end
  else (s, Ret ()).

(** [exit_handler], lchat.c lines 47 to 52. *)
Definition exit_handler : proc () := λ s,
  (r ← sys_tcsetattr (origin_term s);
   if r =? -1 then proc_exit EXIT_FAILURE else mret ()) s.

(** [exit] runs the handler once it is registered.  A handler that calls
    [exit] again is undefined behaviour. *)
Definition at_exit {A} (m : proc A) : proc A := λ s,
  match m s with
  | (s', Exit st) =>
      if m_atexit s' then
        match exit_handler s' with
        | (s'', Ret _) => (s'', Exit st)
        | (s'', _) => (s'', Undef)
        end
      else (s', Exit st)
  | (s', r) => (s', r)
  end.

(** [usage], lchat.c lines 124 to 130; the text on stderr is not
    modelled. *)
Definition usage {A} : io A := exit EXIT_FAILURE.

(** [strdup] and [asprintf] either get their memory or return NULL (-1), on
    which every caller in [main] calls err. *)
Definition strdup (s : string) : io string :=
  if alloc_ok (Z.of_nat (String.length s) + 1) then mret s
  else exit EXIT_FAILURE.

(** [strtoull(s, NULL, 0)] of the C library: the value, and whether errno
    is set. *)
Variable strtoull : string → Z * bool.

(** The locals of [main] that the options set. *)
Record locals := Locals {
  l_empty_line : bool;
  l_bell_flag : bool;
  l_bell_file : string;
  l_history_len : Z;
  l_prompt : list Z;
  l_title : option (list Z);
  l_prompt_len : Z;
  l_dir : string;
  l_in_file : option string;
  l_out_file : option string
}.

(** [main], lines 138 to 157: the locals before the options. *)
Definition main_locals : io locals :=
  p ← read_file_line ".prompt";
  title ← read_file_line ".title";
  (* set default prompt *)
  let p' := match p with
            | None => bytes_of_string ">"
            | Some l => l
            end in
  mret (Locals false true ".bellmatch" 5 p' title (Z.of_nat (length p'))
               "." None None).

(** Lines 160 to 194: the switch on one option that getopt has found with
    the option string "an:i:eo:p:t:h"; [ch] is 63 (a question mark) for
    what getopt rejects. *)
Definition main_option (l : locals) (ch : Z) (optarg : string) : io locals :=
  if ch =? 97 then                                        (* 'a' *)
    mret (Locals (l_empty_line l) false (l_bell_file l) (l_history_len l)
                 (l_prompt l) (l_title l) (l_prompt_len l) (l_dir l)
                 (l_in_file l) (l_out_file l))
  else if ch =? 110 then                                  (* 'n' *)
    let '(v, e) := strtoull optarg in
    if (e : bool) then exit EXIT_FAILURE
    else
      mret (Locals (l_empty_line l) (l_bell_flag l) (l_bell_file l) v
                   (l_prompt l) (l_title l) (l_prompt_len l) (l_dir l)
                   (l_in_file l) (l_out_file l))
  else if ch =? 105 then                                  (* 'i' *)
    s ← strdup optarg;
    mret (Locals (l_empty_line l) (l_bell_flag l) (l_bell_file l)
                 (l_history_len l) (l_prompt l) (l_title l) (l_prompt_len l)
                 (l_dir l) (Some s) (l_out_file l))
  else if ch =? 101 then                                  (* 'e' *)
    mret (Locals true (l_bell_flag l) (l_bell_file l) (l_history_len l)
                 (l_prompt l) (l_title l) (l_prompt_len l) (l_dir l)
                 (l_in_file l) (l_out_file l))
  else if ch =? 111 then                                  (* 'o' *)
    s ← strdup optarg;
    mret (Locals (l_empty_line l) (l_bell_flag l) (l_bell_file l)
                 (l_history_len l) (l_prompt l) (l_title l) (l_prompt_len l)
                 (l_dir l) (l_in_file l) (Some s))
  else if ch =? 112 then                                  (* 'p' *)
    s ← strdup optarg;
    mret (Locals (l_empty_line l) (l_bell_flag l) (l_bell_file l)
                 (l_history_len l) (bytes_of_string s) (l_title l)
                 (Z.of_nat (length (bytes_of_string s))) (l_dir l)
                 (l_in_file l) (l_out_file l))
  else if ch =? 116 then                                  (* 't' *)
    s ← strdup optarg;
    mret (Locals (l_empty_line l) (l_bell_flag l) (l_bell_file l)
                 (l_history_len l) (l_prompt l) (Some (bytes_of_string s))
                 (l_prompt_len l) (l_dir l) (l_in_file l) (l_out_file l))
  else usage.                                             (* 'h', default *)

(** Lines 159 to 195: the loop over the options, in the order in which
    getopt finds them; each comes with its argument. *)
Fixpoint main_getopt (opts : list (Z * string)) (l : locals) : io locals :=
  match opts with
  | [] => mret l
  | (ch, optarg) :: opts' =>
      l' ← main_option l ch optarg;
      main_getopt opts' l'
  end.

(** Lines 196 to 212: the operands left after the options, and the two
    paths.  The result carries [in_file] and [out_file]. *)
Definition main_paths (operands : list string) (l : locals)
  : io (locals * string * string) :=
  if (1 <? length operands)%nat then usage
  else
    dir ← match operands with
          | d :: _ => strdup d
          | [] => mret (l_dir l)
          end;
    in_file ← match l_in_file l with
              | None => strdup (dir +:+ "/in")
              | Some f => mret f
              end;
    out_file ← match l_out_file l with
               | None => strdup (dir +:+ "/out")
               | Some f => mret f
               end;
    mret (Locals (l_empty_line l) (l_bell_flag l) (l_bell_file l)
                 (l_history_len l) (l_prompt l) (l_title l) (l_prompt_len l)
                 dir (Some in_file) (Some out_file),
          in_file, out_file).

(** Lines 138 to 212. *)
Definition main_args (opts : list (Z * string)) (operands : list string)
  : io (locals * string * string) :=
  l0 ← main_locals;
  l1 ← main_getopt opts l0;
  main_paths operands l1.

(** Lines 217 to 223: the window title.  stdout is still buffered here, but
    nothing else is sent to the terminal before setbuf, so the bytes come
    first on the terminal all the same.  strcmp on the NULL that getenv
    returns without TERM is undefined. *)
Definition main_title (title : option (list Z)) : proc () :=
  match title with
  | None => mret ()
  | Some t =>
      term ← sys_getenv_TERM;
      match term with
      | None => proc_undef
      | Some v =>
          if String.eqb v "screen"
          then lift (put ([27; 107] ++ t ++ [27; 92]))
          else lift (put ([27; 93; 48; 59] ++ t ++ [7]))
      end
  end.

(** Lines 237 to 243: the changes to the attributes (copied from
    cfmakeraw, with the line on [c_oflag] commented out). *)
Definition raw_mode (t : termios) : termios :=
  Termios
    (Z.land (c_iflag t)
            (Z.lnot (Z.lor IMAXBEL (Z.lor BRKINT (Z.lor PARMRK
               (Z.lor ISTRIP (Z.lor INLCR (Z.lor IGNCR
                  (Z.lor ICRNL IXON)))))))))
    (c_oflag t)
    (Z.lor (Z.land (c_cflag t) (Z.lnot (Z.lor CSIZE PARENB))) CS8)
    (Z.land (c_lflag t)
            (Z.lnot (Z.lor ECHO (Z.lor ECHONL (Z.lor ICANON IEXTEN)))))
    (<[VTIME := 0]> (<[VMIN := 1]> (c_cc t))).

(** Lines 225 to 246: keep the attributes for the exit, then set the
    terminal up. *)
Definition main_terminal : proc () :=
  o ← sys_tcgetattr;
  match o with
  | None => proc_exit EXIT_FAILURE
  | Some t =>
      (λ s, (set_origin_term s t, Ret ()));;
      r ← sys_atexit;
      if r =? -1 then proc_exit EXIT_FAILURE
      else
        o' ← sys_tcgetattr;
        match o' with
        | None => proc_exit EXIT_FAILURE
        | Some term =>
            r' ← sys_tcsetattr (raw_mode term);
            if r' =? -1 then proc_exit EXIT_FAILURE else mret ()
        end
  end.

(** What printf's [%zd] prints for a [size_t]: the value read as signed. *)
Definition zd (v : Z) : string :=
  if v <? 2 ^ 63 then pretty (Z.to_N v)
  else "-" +:+ pretty (Z.to_N (2 ^ 64 - v)).

(** Lines 255 to 260: the command of the feed. *)
Definition tail_command (history_len : Z) (out_file : string) (filter : bool)
  : string :=
  let cmd := snprintf_buf ("exec tail -n " +:+ zd history_len +:+ " -f "
                             +:+ out_file) in
  if filter then snprintf_buf (cmd +:+ " | ./.filter") else cmd.

(** Lines 214 to 272: from the check of the terminal to the first
    prompt. *)
Definition main_setup (l : locals) (in_file out_file : string) : proc config :=
  t ← sys_isatty;
  if t =? 0 then proc_exit EXIT_FAILURE
  else
    main_title (l_title l);;
    main_terminal;;
    (* get the terminal size *)
    sigwinch SIGWINCH;;
    (* open external source *)
    x ← sys_access_filter;
    fh ← lift (sys_popen (tail_command (l_history_len l) out_file (x =? 0)));
    match fh with
    | None => proc_exit EXIT_FAILURE
    | Some _ =>
        (* print initial prompt *)
        lift (put (l_prompt l));;
        mret (Config (l_empty_line l) (l_bell_flag l) (l_bell_file l)
                     (l_prompt l) (l_prompt_len l) in_file)
    end.

(** [main], lines 132 to 342, for the options and operands that getopt
    finds and the wakeups that poll brings.  The width read at a wakeup is
    what the signal handler has left in [winsize] by then; the wakeup
    carries it. *)
Definition main_start (opts : list (Z * string)) (operands : list string)
  : proc config :=
  '(l, in_file, out_file) ← lift (main_args opts operands);
  main_setup l in_file out_file.

Definition main (opts : list (Z * string)) (operands : list string)
    (ins : list input) : proc loop_state :=
  at_exit
    (cfg ← main_start opts operands;
     lift (main_loop cfg ins (LoopState sl_init 0))).

(** ** Concrete inputs of the examples *)

(** An allocator that grants every request. *)
Definition grant_all (n : Z) : bool := true.

(** A grep whose patterns match the text "hi" and nothing else. *)
Definition grep_hi (cmd : string) (fs : gmap string file) (stdin : list Z)
  : Z :=
  if decide (stdin = [104; 105]) then 0 else 1.

(** The defaults of [main] with the prompt ">". *)
Definition ex_cfg : config := Config false true ".bellmatch" [62] 1 "./in".

(** A directory with an empty file [in] and nothing else; one with a
    pattern file only. *)
Definition ex_world : world :=
  World {[ "./in" := File [] true true ]} ∅ ∅ [] [].

Definition ex_world_bell : world :=
  World {[ ".bellmatch" := File [104; 10] true false ]} ∅ ∅ [] [].

(** The line "hi" in a buffer of eight bytes, with the cursor at its end
    and between the two letters. *)
Definition ex_hi : slackline :=
  Slackline [104; 105; 0; 0; 0; 0; 0; 0] 8 2 2 2 2 ESC_NONE (replicate 6 0) 0.


(** Wakeups: the return key, a hangup of the feed, the text "hi" in the
    feed; the terminal is 80 columns wide. *)
Definition ex_return : input := Input 1 0 13 None 80.
Definition ex_hangup : input := Input 0 16 0 None 80.
Definition ex_feed : input := Input 0 1 0 (Some [104; 105]) 80.

(** A prompt file of two lines, with the prompt "$ " in the first. *)
Definition ex_world_prompt : world :=
  World {[ ".prompt" := File [36; 32; 10; 120] true false ]} ∅ ∅ [] [].

(** No file at all. *)
Definition ex_world_none : world := World ∅ ∅ ∅ [] [].

(** A terminal as a login leaves it, of 24 lines and 80 columns, and a
    process at its start on it. *)
Definition ex_term : termios := Termios 1280 5 191 35387 (replicate 32 0).

Definition ex_machine : machine :=
  Machine ex_world (Some ex_term) (Some (Winsize 24 80)) (Some "xterm") false
          (Termios 0 0 0 0 (replicate 32 0)) (Winsize 0 0) false.

(** The same with stdin and with stdout turned away from the terminal, and
    without terminal type. *)
Definition ex_machine_piped : machine :=
  Machine ex_world None (Some (Winsize 24 80)) (Some "xterm") false
          (Termios 0 0 0 0 (replicate 32 0)) (Winsize 0 0) false.

Definition ex_machine_redirected : machine :=
  Machine ex_world (Some ex_term) None (Some "xterm") false
          (Termios 0 0 0 0 (replicate 32 0)) (Winsize 0 0) false.

Definition ex_machine_no_TERM : machine :=
  Machine ex_world (Some ex_term) (Some (Winsize 24 80)) None false
          (Termios 0 0 0 0 (replicate 32 0)) (Winsize 0 0) false.

(** strtoull on decimal digits. *)
Definition dec_strtoull (s : string) : Z * bool :=
  (fold_left (λ acc a, 10 * acc + (Z.of_N (Ascii.N_of_ascii a) - 48))
             (String.list_ascii_of_string s) 0, false).

(** A path of 300 bytes. *)
Definition ex_long_path : string :=
  String.concat "" (replicate 300 "a").


(** ** Invariants of the proofs *)

(** Every [exit] inside a computation is one of failure. *)
Definition only_fails {A} (m : io A) : Prop :=
  ∀ w w' s, m w = (w', Exit s) → s = EXIT_FAILURE.

(** The engine between two codepoints of a line typed at its end: [k] runes
    in [t] bytes, no escape sequence and no codepoint under way. *)
Definition at_rest (sl : slackline) (k t : Z) : Prop :=
  esc sl = ESC_NONE ∧ ubuf_len sl = 0 ∧ length (ubuf sl) = 6%nat ∧
  rlen sl = k ∧ rcur sl = k ∧ blen sl = t ∧ bcur sl = t ∧ 0 <= k ∧ 0 <= t.

(** The same with the first [n] bytes of a codepoint led by [lead]
    collected. *)
Definition pending (sl : slackline) (k t lead n : Z) : Prop :=
  esc sl = ESC_NONE ∧ ubuf_len sl = n ∧ length (ubuf sl) = 6%nat ∧
  ubuf sl !! 0%nat = Some lead ∧
  rlen sl = k ∧ rcur sl = k ∧ blen sl = t ∧ bcur sl = t ∧ 0 <= k ∧ 0 <= t.

(** A line that lies in its buffer with room for the sentinel, outside of
    any escape sequence. *)
Definition typed_ok (sl : slackline) : Prop :=
  esc sl = ESC_NONE ∧ bufsize sl = Z.of_nat (length (buf sl)) ∧
  0 <= bcur sl <= blen sl ∧ blen sl < bufsize sl ∧
  0 <= rcur sl <= rlen sl.

(** The codepoints the engine takes for control keys. *)
Definition control_key (cp : Z) : Prop := cp = 27 ∨ cp = 8 ∨ cp = 127.

(** The bytes of [d] before its first NUL, and before its first newline or
    NUL. *)
Fixpoint until_nul (d : list Z) : list Z :=
  match d with
  | [] => []
  | b :: d' => if b =? 0 then [] else b :: until_nul d'
  end.

Fixpoint line_of (d : list Z) : list Z :=
  match d with
  | [] => []
  | b :: d' => if (b =? 10) || (b =? 0) then [] else b :: line_of d'
  end.

(** What a computation does to the world: whatever its outcome, and when it
    returns. *)
Definition keeps {A} (R : world → world → Prop) (m : io A) : Prop :=
  ∀ w w' r, m w = (w', r) → R w w'.

Definition keeps_ret {A} (R : world → world → Prop) (m : io A) : Prop :=
  ∀ w w' a, m w = (w', Ret a) → R w w'.

(** A computation that leaves the files alone. *)
Definition fs_const {A} (m : io A) : Prop :=
  keeps (λ w w', w_fs w' = w_fs w) m.

(** The files [fs'] are the files [fs], but for bytes appended to the file
    [path]. *)
Definition appended_to (path : string) (fs fs' : gmap string file) : Prop :=
  (∀ p, p ≠ path → fs' !! p = fs !! p) ∧
  match fs !! path, fs' !! path with
  | Some f, Some f' =>
      ∃ more, f' = File (f_data f ++ more) (f_readable f) (f_writable f)
  | None, None => True
  | _, _ => False
  end.

(** The same descriptors and the same children. *)
Definition same_handles (w w' : world) : Prop :=
  w_fds w' = w_fds w ∧ w_procs w' = w_procs w.

(** The same files, children and terminal output. *)
Definition quiet (w w' : world) : Prop :=
  w_fs w' = w_fs w ∧ w_procs w' = w_procs w ∧ w_tty w' = w_tty w.

(** The argument of the last option [ch] among the options. *)
Fixpoint last_arg (ch : Z) (opts : list (Z * string)) : option string :=
  match opts with
  | [] => None
  | (c, a) :: opts' =>
      match last_arg ch opts' with
      | Some a' => Some a'
      | None => if c =? ch then Some a else None
      end
  end.

(** The options of the option string of [main], but for -h. *)
Definition known_option (ch : Z) : bool :=
  bool_decide (ch ∈ [97; 110; 105; 101; 111; 112; 116]).

(** The escape sequence that sets the window title, for screen and for
    other terminals. *)
Definition title_seq (title : option (list Z)) (term : option string)
  : list Z :=
  match title, term with
  | Some t, Some v =>
      if String.eqb v "screen" then [27; 107] ++ t ++ [27; 92]
      else [27; 93; 48; 59] ++ t ++ [7]
  | _, _ => []
  end.

(** What a step of the process leaves alone apart from the files and the
    terminal output. *)
Definition same_machine (s s' : machine) : Prop :=
  s' = set_world s (m_world s').

(** The terminal on stdin, the kept attributes and the registration of the
    handler. *)
Definition same_terminal (s s' : machine) : Prop :=
  m_stdin s' = m_stdin s ∧ origin_term s' = origin_term s ∧
  m_atexit s' = m_atexit s.

(** * Properties *)

(** ** Fresh descriptors *)

Lemma fresh_key_unused {V} (m : gmap Z V) : m !! fresh_key m = None.
Proof.
  unfold fresh_key.
  destruct (head (filter _ _)) as [k|] eqn:Hh; simpl.
  - apply head_Some_elem_of, list_elem_of_filter in Hh as [Hk _].
    destruct (m !! k) eqn:E; [|done]. destruct Hk. eauto.
  - exfalso. apply head_None in Hh.
    assert (Hsub : list_to_set (C := gset Z)
                     (seqZ 3 (Z.of_nat (size m) + 1)) ⊆ dom m).
    { intros k Hk. apply elem_of_list_to_set in Hk.
      apply elem_of_dom. destruct (decide (is_Some (m !! k))) as [|Hn]; [done|].
      exfalso. by apply (filter_nil_not_elem_of _ _ k Hh). }
    apply subseteq_size in Hsub.
    rewrite size_list_to_set, length_seqZ, size_dom in Hsub
      by apply NoDup_seqZ.
    lia.
Qed.

Lemma fresh_key_ge {V} (m : gmap Z V) : 3 <= fresh_key m.
Proof.
  unfold fresh_key.
  destruct (head (filter _ _)) as [k|] eqn:Hh; simpl; [|lia].
  apply head_Some_elem_of, list_elem_of_filter in Hh as [_ Hk].
  apply elem_of_seqZ in Hk. lia.
Qed.

(** ** Arrays and strings *)

Lemma size_add_small a b : 0 <= a + b < SIZE_MOD → size_add a b = a + b.
Proof. intros H. unfold size_add. by apply Z.mod_small. Qed.

Lemma store_in_range (a : list Z) i v :
  0 <= i < Z.of_nat (length a) → store a i v = Some (<[Z.to_nat i := v]> a).
Proof.
  intros H. unfold store.
  destruct (Z.leb_spec 0 i); [|lia].
  destruct (Z.ltb_spec i (Z.of_nat (length a))); [done|lia].
Qed.

Lemma load_in_range (a : list Z) n :
  0 <= n <= Z.of_nat (length a) → load a n = Some (take (Z.to_nat n) a).
Proof.
  intros H. unfold load.
  destruct (Z.leb_spec 0 n); [|lia].
  destruct (Z.leb_spec n (Z.of_nat (length a))); [done|lia].
Qed.

Lemma take_succ_insert (a : list Z) (i : nat) v :
  (i < length a)%nat → take (S i) (<[i := v]> a) = take i a ++ [v].
Proof.
  intros H. rewrite (take_S_r _ _ v) by by apply list_lookup_insert_eq.
  by rewrite take_insert_ge.
Qed.

Lemma cstr_nul (a : list Z) : cstr (0 :: a) = Some [].
Proof. done. Qed.

(** ** The commit of a line *)

(** Running [line_output] on a line that lies in its buffer, for a file that
    exists and may be written: one open, one write of the line and a
    newline, one close. *)
Lemma line_output_appends sl path f w :
  0 <= len sl < Z.of_nat (length (buf sl)) →
  len sl + 1 < SIZE_MOD →
  w_fs w !! path = Some f →
  f_writable f = true →
  let fd := fresh_key (w_fds w) in
  let line := take (Z.to_nat (len sl)) (buf sl) ++ [10] in
  line_output sl path w =
    (World (<[path := File (f_data f ++ line) (f_readable f) (f_writable f)]>
              (w_fs w))
           (w_fds w) (w_procs w) (w_tty w)
           (w_trace w ++ [EvOpen path fd; EvWrite fd line; EvClose fd]),
     Ret (set_buf sl (<[Z.to_nat (len sl) := 10]> (buf sl)))).
Proof.
  intros Hlen Hmod Hf Hw fd line.
  pose proof (fresh_key_ge (w_fds w)) as Hge.
  pose proof (fresh_key_unused (w_fds w)) as Hnew.
  fold fd in Hge, Hnew.
  unfold line_output, mbind, io_bind, mret, io_ret, sys_open_append.
  rewrite Hf, Hw. fold fd.
  destruct (Z.eqb_spec fd (-1)) as [|_]; [lia|].
  unfold must at 1. rewrite store_in_range by done.
  unfold must. rewrite size_add_small by lia.
  rewrite load_in_range by (rewrite length_insert; lia).
  replace (Z.to_nat (len sl + 1)) with (S (Z.to_nat (len sl))) by lia.
  rewrite take_succ_insert by lia. fold line.
  unfold sys_write; simpl.
  destruct (Z.eqb_spec fd 1) as [|_]; [lia|].
  rewrite lookup_insert_eq, Hf.
  destruct (Z.eqb_spec (Z.of_nat (length line)) (-1)) as [|_]; [lia|].
  unfold sys_close; simpl. rewrite lookup_insert_eq.
  simpl. rewrite delete_insert_id by done.
  rewrite <- !(assoc_L (++)). simpl. by rewrite ?Hw.
Qed.

Lemma sl_reset_empty sl :
  buf sl ≠ [] →
  len (sl_reset sl) = 0 ∧ cur (sl_reset sl) = 0 ∧
  blen (sl_reset sl) = 0 ∧ bcur (sl_reset sl) = 0 ∧
  rlen (sl_reset sl) = 0 ∧ rcur (sl_reset sl) = 0 ∧
  esc (sl_reset sl) = ESC_NONE ∧ ubuf_len (sl_reset sl) = 0 ∧
  cstr (buf (sl_reset sl)) = Some [].
Proof.
  intros Hb. repeat split; try done.
  simpl. destruct (buf sl); done.
Qed.

(** The keyboard part of an iteration that reads a carriage return and does
    not take the way out: the line is put out, the struct is reset, and the
    key goes on to [sl_keystroke]. *)
Lemma handle_keyboard_commit cfg inp sl w w1 sl1 :
  flag_set (in_revents0 inp) POLLIN = true →
  in_key inp = 13 →
  len sl ≠ 0 ∨ empty_line cfg = true →
  line_output sl (in_file cfg) w = (w1, Ret sl1) →
  handle_keyboard cfg inp sl w =
    (w1, match sl_keystroke (sl_reset sl1) 13 with
         | Some sl2 => Ret (Fall sl2)
         | None => Exit EXIT_FAILURE
         end).
Proof.
  intros Hin Hkey Hne Hout.
  unfold handle_keyboard. rewrite Hin, Hkey. simpl.
  assert ((len sl =? 0) && negb (empty_line cfg) = false) as ->.
  { destruct Hne as [Hl| ->]; [|by rewrite andb_false_r].
    by destruct (Z.eqb_spec (len sl) 0). }
  unfold mbind, io_bind, mret, io_ret. rewrite Hout.
  by destruct (sl_keystroke (sl_reset sl1) 13).
Qed.

(** C1. A carriage return read from the keyboard while the line is not empty,
    or while empty lines may be sent, appends the bytes of the line and one
    newline to the outbound file, between an open and a close of that file
    that serve this one write, and resets the buffer to empty (all lengths
    and cursors zero, the empty string in the buffer) before the loop goes
    on.  The line lies in its buffer and the file exists and may be
    written. *)
Theorem commit_appends_line_and_resets cfg inp sl w f :
  flag_set (in_revents0 inp) POLLIN = true →
  in_key inp = 13 →
  len sl ≠ 0 ∨ empty_line cfg = true →
  0 <= len sl < Z.of_nat (length (buf sl)) →
  len sl + 1 < SIZE_MOD →
  w_fs w !! in_file cfg = Some f →
  f_writable f = true →
  let fd := fresh_key (w_fds w) in
  let line := take (Z.to_nat (len sl)) (buf sl) ++ [10] in
  let w' :=
    World (<[in_file cfg := File (f_data f ++ line) (f_readable f)
                                 (f_writable f)]> (w_fs w))
          (w_fds w) (w_procs w) (w_tty w)
          (w_trace w ++ [EvOpen (in_file cfg) fd; EvWrite fd line; EvClose fd])
  in
  ∃ sl1,
    line_output sl (in_file cfg) w = (w', Ret sl1) ∧
    handle_keyboard cfg inp sl w =
      (w', match sl_keystroke (sl_reset sl1) 13 with
           | Some sl2 => Ret (Fall sl2)
           | None => Exit EXIT_FAILURE
           end) ∧
    len (sl_reset sl1) = 0 ∧ cur (sl_reset sl1) = 0 ∧
    rlen (sl_reset sl1) = 0 ∧ bcur (sl_reset sl1) = 0 ∧
    esc (sl_reset sl1) = ESC_NONE ∧ ubuf_len (sl_reset sl1) = 0 ∧
    cstr (buf (sl_reset sl1)) = Some [].
Proof.
  intros Hin Hkey Hne Hlen Hmod Hf Hw fd line w'.
  pose proof (line_output_appends sl (in_file cfg) f w Hlen Hmod Hf Hw) as Hout.
  simpl in Hout. fold fd line w' in Hout.
  eexists. split; [exact Hout|]. split.
  - by apply handle_keyboard_commit.
  - assert (buf (set_buf sl (<[Z.to_nat (len sl) := 10]> (buf sl))) ≠ [])
      as Hb.
    { simpl. intros E. apply (f_equal length) in E.
      rewrite length_insert in E. simpl in E. lia. }
    destruct (sl_reset_empty _ Hb) as (?&?&?&?&?&?&?&?&?). by repeat split.
Qed.

(** C10. After a commit that succeeded, the carriage return itself is handed
    to [sl_keystroke], on the struct [sl_reset] has just reset: the branch
    for the return key does not end the keyboard part. *)
Theorem commit_then_keystroke_13 cfg inp sl w w1 sl1 :
  flag_set (in_revents0 inp) POLLIN = true →
  in_key inp = 13 →
  len sl ≠ 0 ∨ empty_line cfg = true →
  line_output sl (in_file cfg) w = (w1, Ret sl1) →
  handle_keyboard cfg inp sl w =
    (w1, match sl_keystroke (sl_reset sl1) (in_key inp) with
         | Some sl2 => Ret (Fall sl2)
         | None => Exit EXIT_FAILURE
         end).
Proof.
  intros Hin Hkey Hne Hout. rewrite Hkey.
  by apply handle_keyboard_commit.
Qed.

(** ** The redraw *)

Lemma emit_emit w a b : emit (emit w a) b = emit w (a ++ b).
Proof. unfold emit; simpl. by rewrite (assoc_L (++)). Qed.

Lemma emit_nil w : emit w [] = w.
Proof. destruct w. unfold emit; simpl. by rewrite app_nil_r. Qed.

Lemma loop_preamble_run lo w :
  ∃ out, loop_preamble lo w = (emit w out, Ret ()).
Proof.
  unfold loop_preamble, mbind, io_bind, mret, io_ret, put.
  destruct (0 <? lo); simpl; rewrite ?emit_emit; eauto.
Qed.

(** The redraw on a terminated buffer and a terminal of some width. *)
Lemma redraw_run cfg inp sl w s :
  cstr (buf sl) = Some s →
  0 < in_ws_col inp →
  let t := size_add (prompt_len cfg) (len sl) in
  let m := size_add (cur sl) (prompt_len cfg) in
  redraw cfg inp sl w =
    (emit w (prompt cfg ++ s
             ++ (if (0 <? t) && (t `mod` in_ws_col inp =? 0) then [10] else [])
             ++ (if cur sl <? len sl
                 then 13 :: (if 0 <? m
                             then [27] ++ bytes_of_string "[" ++ decimal m
                                       ++ bytes_of_string "C"
                             else [])
                 else [])),
     Ret (t `div` in_ws_col inp)).
Proof.
  intros Hs Hc t m.
  unfold redraw, mbind, io_bind, mret, io_ret, put, must. rewrite Hs.
  destruct (Z.eqb_spec (in_ws_col inp) 0) as [|_]; [lia|].
  fold t m.
  destruct ((0 <? t) && (t `mod` in_ws_col inp =? 0));
    destruct (cur sl <? len sl); [destruct (0 <? m)| |destruct (0 <? m)|];
    simpl; rewrite ?emit_emit, ?app_nil_r; done.
Qed.

(** C7. Every redraw leaves in [loverhang] the quotient of prompt length
    plus byte length by the terminal width, and puts out a newline after
    the line exactly when that sum is not zero and a multiple of the width.
    What follows the newline is the cursor move, which is empty or starts
    with a carriage return. *)
Theorem redraw_overhang_and_wrap_newline cfg inp sl w s :
  cstr (buf sl) = Some s →
  0 < in_ws_col inp →
  0 <= prompt_len cfg + len sl < SIZE_MOD →
  let t := prompt_len cfg + len sl in
  ∃ nl tail,
    redraw cfg inp sl w =
      (emit w (prompt cfg ++ s ++ nl ++ tail), Ret (t `div` in_ws_col inp)) ∧
    (nl = [10] ∨ nl = []) ∧
    (nl = [10] ↔ t ≠ 0 ∧ t `mod` in_ws_col inp = 0) ∧
    (tail = [] ∨ head tail = Some 13).
Proof.
  intros Hs Hc Ht t.
  rewrite (redraw_run cfg inp sl w s Hs Hc). simpl.
  rewrite (size_add_small (prompt_len cfg) (len sl)) by done. fold t.
  eexists _, _. split; [reflexivity|].
  split; [destruct ((0 <? t) && _); auto|]. split.
  - destruct (Z.ltb_spec 0 t), (Z.eqb_spec (t `mod` in_ws_col inp) 0);
      simpl; split; try done; try lia; intros [? ?]; lia.
  - destruct (cur sl <? len sl); auto.
Qed.


(** ** The empty line *)

(** C2, as the code has it.  A carriage return on an empty buffer, with
    empty lines not to be sent, jumps to the label [out], which lies inside
    the loop: the iteration is the erasing of the old line and the redraw,
    and nothing else.  It skips the keystroke and the feed, touches no file
    and no descriptor, and the loop goes on with the next wakeup. *)
Theorem empty_return_redraws_and_loops cfg inp st w s ins :
  flag_set (in_revents0 inp) POLLIN = true →
  in_key inp = 13 →
  len (st_sl st) = 0 →
  empty_line cfg = false →
  cstr (buf (st_sl st)) = Some s →
  0 < in_ws_col inp →
  ∃ pre w2 lo,
    loop_preamble (st_loverhang st) w = (emit w pre, Ret ()) ∧
    redraw cfg inp (st_sl st) (emit w pre) = (w2, Ret lo) ∧
    iteration cfg inp st w = (w2, Ret (Next, LoopState (st_sl st) lo)) ∧
    main_loop cfg (inp :: ins) st w =
      main_loop cfg ins (LoopState (st_sl st) lo) w2 ∧
    w_fs w2 = w_fs w ∧ w_fds w2 = w_fds w ∧ w_trace w2 = w_trace w.
Proof.
  intros Hin Hkey Hlen He Hs Hc.
  destruct (loop_preamble_run (st_loverhang st) w) as [pre Hpre].
  pose proof (redraw_run cfg inp (st_sl st) (emit w pre) s Hs Hc) as Hre.
  cbv zeta in Hre.
  destruct (redraw cfg inp (st_sl st) (emit w pre)) as [w2 r] eqn:Hrd.
  injection Hre as Hw2 Hr.
  set (lo := size_add (prompt_len cfg) (len (st_sl st)) `div` in_ws_col inp)
    in Hr.
  subst r.
  assert (iteration cfg inp st w = (w2, Ret (Next, LoopState (st_sl st) lo)))
    as Hit.
  { unfold iteration, mbind, io_bind. rewrite Hpre.
    unfold handle_keyboard. rewrite Hin, Hkey, Hlen, He. simpl.
    unfold mbind, io_bind, mret, io_ret.
    by rewrite Hrd. }
  exists pre, w2, lo. split; [done|]. split; [done|].
  split; [exact Hit|]. split; [|by rewrite Hw2].
  simpl. unfold mbind, io_bind at 1. by rewrite Hit.
Qed.

(** ** The feed and the bell *)


Lemma cstr_app_nul (t r : list Z) :
  Forall (λ b, b ≠ 0) t → cstr (t ++ 0 :: r) = Some t.
Proof.
  induction 1 as [|b t Hb _ IH]; [done|].
  simpl. destruct (Z.eqb_spec b 0); [done|]. by rewrite IH.
Qed.

Lemma bell_match_no_file str file w :
  w_fs w !! file = None → bell_match str file w = (w, Ret true).
Proof.
  intros Hf. unfold bell_match, mbind, io_bind, sys_access. by rewrite Hf.
Qed.

Lemma bell_match_unreadable str file f w :
  w_fs w !! file = Some f → f_readable f = false →
  bell_match str file w = (w, Ret true).
Proof.
  intros Hf Hr. unfold bell_match, mbind, io_bind, sys_access.
  by rewrite Hf, Hr.
Qed.

(** With a pattern file at hand, the verdict is the status of grep on the
    string. *)
Lemma bell_match_run str t file f w :
  w_fs w !! file = Some f → f_readable f = true →
  cstr str = Some t →
  let cmd := snprintf_buf ("exec grep -qf " +:+ file) in
  let status := shell cmd (w_fs w) t in
  bell_match str file w =
    (World (w_fs w) (w_fds w) (w_procs w) (w_tty w)
           (w_trace w ++ [EvRun cmd t status]),
     Ret (status =? 0)).
Proof.
  intros Hf Hr Ht cmd status.
  pose proof (fresh_key_unused (w_procs w)) as Hnew.
  unfold bell_match, mbind, io_bind, mret, io_ret, sys_access.
  rewrite Hf, Hr. simpl. fold cmd.
  unfold must. rewrite Ht.
  unfold sys_fputs_pipe; simpl. rewrite lookup_insert_eq. simpl.
  unfold sys_pclose; simpl. rewrite lookup_insert_eq. simpl.
  rewrite delete_insert_eq, delete_insert_id by done.
  fold status. by destruct (status =? 0).
Qed.


(** What read stores in the array of BUFSIZ bytes, and where the NUL
    goes. *)
Lemma feed_got_bounds (avail : list Z) :
  avail ≠ [] →
  0 < Z.of_nat (length (take (Z.to_nat BUFSIZ) avail)) <= BUFSIZ.
Proof.
  intros Havail. rewrite length_take.
  assert (length avail ≠ 0%nat) by (by destruct avail). lia.
Qed.

Lemma feed_arr_length (avail : list Z) :
  avail ≠ [] →
  Z.of_nat (length (read_into stack_buf (take (Z.to_nat BUFSIZ) avail)))
  = BUFSIZ.
Proof.
  intros Havail. pose proof (feed_got_bounds avail Havail) as H.
  unfold read_into, stack_buf.
  rewrite length_app, length_drop, length_replicate. lia.
Qed.

Lemma feed_arr_take (a got : list Z) :
  take (length got) (read_into a got) = got.
Proof. unfold read_into. apply take_app_length. Qed.

(** The feed part of an iteration that has read something: the bytes go to
    the terminal, and the array, closed by a NUL, goes to the bell. *)
Lemma handle_feed_run cfg inp avail w :
  flag_set (in_revents1 inp) POLLIN = true →
  in_feed inp = Some avail →
  avail ≠ [] →
  let got := take (Z.to_nat BUFSIZ) avail in
  let n := Z.of_nat (length got) in
  handle_feed cfg inp w =
    alert cfg (<[Z.to_nat (if n =? BUFSIZ then n - 1 else n) := 0]>
                 (read_into stack_buf got))
          (emit w got).
Proof.
  intros Hin Hfeed Havail got n.
  pose proof (feed_got_bounds avail Havail) as Hn.
  pose proof (feed_arr_length avail Havail) as Hl.
  fold got in Hn, Hl. fold n in Hn.
  unfold handle_feed. rewrite Hin, Hfeed. fold got n.
  destruct (Z.eqb_spec n 0) as [|_]; [lia|].
  unfold mbind, io_bind, must.
  rewrite load_in_range by lia.
  unfold n at 1. rewrite Nat2Z.id, feed_arr_take.
  unfold sys_write. simpl.
  destruct (Z.eqb_spec (Z.of_nat (length got)) (-1)) as [|_]; [lia|].
  rewrite store_in_range; [done|].
  destruct (Z.eqb_spec n BUFSIZ); lia.
Qed.




(** ** The end of the feed *)

Lemma only_fails_bind {A B} (m : io A) (f : A → io B) :
  only_fails m → (∀ a, only_fails (f a)) → only_fails (m ≫= f).
Proof.
  intros Hm Hf w w' s. unfold mbind, io_bind.
  destruct (m w) as [w1 [a|s1|]] eqn:E; intros H; simplify_eq.
  - by eapply Hf.
  - by eapply Hm.
Qed.

Lemma only_fails_ret {A} (a : A) : only_fails (mret a).
Proof. by intros w w' s [=]. Qed.

Lemma only_fails_exit {A} : only_fails (exit (A := A) EXIT_FAILURE).
Proof. by intros w w' s [=]. Qed.

Lemma only_fails_must {A} (o : option A) : only_fails (must o).
Proof. intros w w' s. unfold must. by destruct o; intros [=]. Qed.

Lemma only_fails_put bs : only_fails (put bs).
Proof. by intros w w' s [=]. Qed.

Lemma only_fails_sys_access path : only_fails (sys_access path).
Proof. by intros w w' s [=]. Qed.

Lemma only_fails_sys_open_append path : only_fails (sys_open_append path).
Proof.
  intros w w' s. unfold sys_open_append. by repeat case_match; intros [=].
Qed.

Lemma only_fails_sys_write fd data : only_fails (sys_write fd data).
Proof. intros w w' s. unfold sys_write. by repeat case_match; intros [=]. Qed.

Lemma only_fails_sys_close fd : only_fails (sys_close fd).
Proof. intros w w' s. unfold sys_close. by repeat case_match; intros [=]. Qed.

Lemma only_fails_sys_popen cmd : only_fails (sys_popen cmd).
Proof. by intros w w' s [=]. Qed.

Lemma only_fails_sys_fputs_pipe t fh : only_fails (sys_fputs_pipe t fh).
Proof.
  intros w w' s. unfold sys_fputs_pipe. by repeat case_match; intros [=].
Qed.

Lemma only_fails_sys_pclose fh : only_fails (sys_pclose fh).
Proof. intros w w' s. unfold sys_pclose. by repeat case_match; intros [=]. Qed.

Create HintDb fails.

#[local] Hint Resolve only_fails_ret only_fails_exit only_fails_must
  only_fails_put only_fails_sys_access only_fails_sys_open_append
  only_fails_sys_write only_fails_sys_close only_fails_sys_popen
  only_fails_sys_fputs_pipe only_fails_sys_pclose : fails.

(** Split a computation along its binds and branches. *)
Ltac fails_step :=
  match goal with
  | |- only_fails (_ ≫= _) => apply only_fails_bind; [|intros ?]
  | |- only_fails (if ?b then _ else _) => destruct b
  | |- only_fails (match ?x with _ => _ end) => destruct x
  | |- only_fails _ => solve [auto with fails]
  end.

Lemma only_fails_line_output sl file : only_fails (line_output sl file).
Proof. unfold line_output. repeat fails_step. Qed.

Lemma only_fails_bell_match str file : only_fails (bell_match str file).
Proof. unfold bell_match. repeat fails_step. Qed.

#[local] Hint Resolve only_fails_line_output only_fails_bell_match : fails.

Lemma only_fails_iteration cfg inp st : only_fails (iteration cfg inp st).
Proof.
  unfold iteration, loop_preamble, handle_keyboard, handle_feed, alert,
    redraw.
  repeat fails_step.
Qed.

Lemma iteration_break cfg inp st w w' st' :
  iteration cfg inp st w = (w', Ret (Break, st')) →
  flag_set (in_revents1 inp) POLLHUP = true.
Proof.
  unfold iteration, mbind, io_bind, mret, io_ret.
  intros H. repeat case_match; simplify_eq; done.
Qed.

(** The loop returns success only after a hangup of the feed. *)
Lemma main_loop_success_only_by_hangup cfg ins st w w' :
  main_loop cfg ins st w = (w', Exit EXIT_SUCCESS) →
  ∃ inp, inp ∈ ins ∧ flag_set (in_revents1 inp) POLLHUP = true.
Proof.
  revert st w. induction ins as [|inp ins IH]; intros st w; simpl.
  - by intros [=].
  - unfold mbind, io_bind.
    destruct (iteration cfg inp st w) as [w1 [[[] st1]|s|]] eqn:Hit.
    + intros H. destruct (IH _ _ H) as (i & Hi & Hh).
      exists i. split; [by right|done].
    + intros _. exists inp. split; [by left|]. by eapply iteration_break.
    + intros [=]. subst.
      by apply only_fails_iteration in Hit.
    + by intros [=].
Qed.

(** C4, as the code has it.  In an iteration whose keyboard part falls
    through to the feed: a hangup of the feed ends the loop by [break], and
    [main] returns EXIT_SUCCESS; a feed that is readable without hangup and
    whose read returns 0 ends the process with EXIT_FAILURE.  The loop ends
    with success in no other way than after a hangup. *)
Theorem feed_end_exit_status cfg inp ins st w :
  (∀ w1 sl1,
     handle_keyboard cfg inp (st_sl st)
                     (fst (loop_preamble (st_loverhang st) w))
       = (w1, Ret (Fall sl1)) →
     (flag_set (in_revents1 inp) POLLHUP = true →
      main_loop cfg (inp :: ins) st w = (w1, Exit EXIT_SUCCESS)) ∧
     (flag_set (in_revents1 inp) POLLHUP = false →
      flag_set (in_revents1 inp) POLLIN = true →
      in_feed inp = Some [] →
      main_loop cfg (inp :: ins) st w = (w1, Exit EXIT_FAILURE))) ∧
  (∀ w',
     main_loop cfg (inp :: ins) st w = (w', Exit EXIT_SUCCESS) →
     ∃ i, i ∈ inp :: ins ∧ flag_set (in_revents1 i) POLLHUP = true).
Proof.
  split; [|intros w'; apply main_loop_success_only_by_hangup].
  intros w1 sl1 Hk.
  destruct (loop_preamble_run (st_loverhang st) w) as [pre Hpre].
  rewrite Hpre in Hk. simpl in Hk.
  split.
  - intros Hhup. simpl. unfold iteration, mbind, io_bind.
    by rewrite Hpre, Hk, Hhup.
  - intros Hhup Hin Hfeed. simpl. unfold iteration, mbind, io_bind.
    rewrite Hpre, Hk, Hhup.
    unfold handle_feed. rewrite Hin, Hfeed. by rewrite take_nil.
Qed.

(** ** The configuration files *)

Lemma read_file_line_unreadable file w :
  unreadable w file → read_file_line file w = (w, Ret None).
Proof.
  unfold unreadable, read_file_line, mbind, io_bind, sys_access.
  destruct (w_fs w !! file) as [f|]; [|done]. by intros ->.
Qed.

Lemma get_line_nil n : get_line n [] = [].
Proof. by destruct n. Qed.

(** A file that may be read but holds no byte is no such fault: fgets
    returns NULL and the process ends. *)
Lemma read_file_line_empty_file file f w :
  w_fs w !! file = Some f → f_readable f = true → f_data f = [] →
  snd (read_file_line file w) = Exit EXIT_FAILURE.
Proof.
  intros Hf Hr Hd.
  unfold read_file_line, mbind, io_bind, sys_access, sys_fopen.
  rewrite Hf, Hr. simpl. rewrite Hf, Hr.
  unfold sys_fgets. simpl. rewrite lookup_insert_eq, Hf, Hd. simpl.
  by rewrite get_line_nil.
Qed.

(** C9, as the code has it.  A configuration file that cannot be accessed
    for reading (there is none, or access for reading is refused) never ends
    the process: [read_file_line] returns NULL and leaves the world as it
    was, for the prompt file and for the title file alike, and [main] goes on
    with the prompt ">" and without title.  With such a prompt file, an exit
    of the start of [main] is one of the read of the title file. *)
Theorem unreadable_config_falls_back w :
  (∀ file, unreadable w file → read_file_line file w = (w, Ret None)) ∧
  (unreadable w ".prompt" → unreadable w ".title" →
   main_config w =
     (w, Ret (Config false true ".bellmatch" (bytes_of_string ">") 1 "./in",
              None))) ∧
  (unreadable w ".prompt" →
   ∀ s, snd (main_config w) = Exit s →
        snd (read_file_line ".title" w) = Exit s).
Proof.
  split; [|split].
  - intros file. apply read_file_line_unreadable.
  - intros Hp Ht. unfold main_config, mbind, io_bind.
    by rewrite !read_file_line_unreadable.
  - intros Hp s. unfold main_config, mbind, io_bind, mret, io_ret.
    rewrite read_file_line_unreadable by done.
    destruct (read_file_line ".title" w) as [w1 [t|s1|]]; simpl; congruence.
Qed.

(** ** The engine on UTF-8 input *)

(** Linear arithmetic with quotients and remainders by constants. *)
Ltac div_lia := Z.to_euclidean_division_equations; lia.

Lemma utf8_len_ascii b : 0 <= b < 128 → utf8_len b = 1.
Proof.
  intros H. unfold utf8_len. rewrite Z.shiftr_div_pow2 by lia.
  change (2 ^ 7) with 128. rewrite Z.div_small by lia. done.
Qed.

Lemma shiftr_eqb_false b n q :
  0 <= n → b `div` 2 ^ n ≠ q → (Z.shiftr b n =? q) = false.
Proof. intros Hn H. rewrite Z.shiftr_div_pow2 by lia. by apply Z.eqb_neq. Qed.

Lemma shiftr_eqb_true b n q :
  0 <= n → b `div` 2 ^ n = q → (Z.shiftr b n =? q) = true.
Proof. intros Hn H. rewrite Z.shiftr_div_pow2 by lia. by apply Z.eqb_eq. Qed.

Lemma utf8_len_2 b : 192 <= b < 224 → utf8_len b = 2.
Proof.
  intros H. unfold utf8_len.
  rewrite (shiftr_eqb_false b 7 0), (shiftr_eqb_true b 5 6); try done;
    change (2 ^ 7) with 128; change (2 ^ 5) with 32; div_lia.
Qed.

Lemma utf8_len_3 b : 224 <= b < 240 → utf8_len b = 3.
Proof.
  intros H. unfold utf8_len.
  rewrite (shiftr_eqb_false b 7 0), (shiftr_eqb_false b 5 6),
    (shiftr_eqb_true b 4 14); try done;
    change (2 ^ 7) with 128; change (2 ^ 5) with 32; change (2 ^ 4) with 16;
    div_lia.
Qed.

Lemma utf8_len_4 b : 240 <= b < 248 → utf8_len b = 4.
Proof.
  intros H. unfold utf8_len.
  rewrite (shiftr_eqb_false b 7 0), (shiftr_eqb_false b 5 6),
    (shiftr_eqb_false b 4 14), (shiftr_eqb_true b 3 30); try done;
    change (2 ^ 7) with 128; change (2 ^ 5) with 32; change (2 ^ 4) with 16;
    change (2 ^ 3) with 8; div_lia.
Qed.

Lemma is_cont_range b : 128 <= b < 192 → is_cont b = true.
Proof.
  intros H. unfold is_cont. apply shiftr_eqb_true; [done|].
  change (2 ^ 6) with 64. div_lia.
Qed.

Section Granted.

(** Every request to the allocator is granted. *)
Hypothesis granted : ∀ n, alloc_ok n = true.

Lemma sl_grow_granted sl need : is_Some (sl_grow sl need).
Proof using granted.
  unfold sl_grow. destruct (need <=? bufsize sl); [eauto|].
  rewrite granted. eauto.
Qed.

(** A sequence collected in [ubuf] goes into the line at its end. *)
Lemma sl_insert_at_end sl u k t :
  rlen sl = k → rcur sl = k → blen sl = t → bcur sl = t →
  0 <= k → 0 <= t → length (ubuf sl) = 6%nat → esc sl = ESC_NONE →
  ∃ sl', sl_insert sl u = Some sl' ∧
         at_rest sl' (k + 1) (t + Z.of_nat (length u)).
Proof using granted.
  intros Hrl Hrc Hbl Hbc Hk Ht Hu He. unfold sl_insert.
  destruct (sl_grow_granted sl (blen sl + Z.of_nat (length u) + 1))
    as [[b cap] ->].
  simpl. eexists. split; [done|].
  unfold at_rest; simpl. repeat split; try done; lia.
Qed.

(** A byte that is a codepoint of its own. *)
Lemma keystroke_single sl k t b :
  at_rest sl k t → 0 <= b < 256 → ¬ control_key b → utf8_len b = 1 →
  ∃ sl', sl_keystroke sl b = Some sl' ∧ at_rest sl' (k + 1) (t + 1).
Proof using granted.
  intros (He & Hn & Hu & Hrl & Hrc & Hbl & Hbc & Hk & Ht) Hb Hc Hl.
  unfold sl_keystroke. rewrite Hrl, Hrc, Hbl, Hbc, !Z.ltb_irrefl, He. simpl.
  rewrite Z.mod_small by done.
  destruct (Z.eqb_spec b 27); [destruct Hc; by left|].
  destruct (Z.eqb_spec b 8); [destruct Hc; right; by left|].
  destruct (Z.eqb_spec b 127); [destruct Hc; right; by right|]. simpl.
  unfold sl_compose. rewrite Hn. simpl.
  rewrite list_lookup_insert_eq by lia. simpl. rewrite Hl. simpl.
  destruct (ubuf sl) as [|x u'] eqn:Eu; [done|]. simpl.
  apply (sl_insert_at_end _ [b] k t); simpl; try done.
Qed.

(** A leading byte of a longer sequence is kept in [ubuf]. *)
Lemma keystroke_lead sl k t b :
  at_rest sl k t → 128 <= b < 256 → 1 < utf8_len b →
  ∃ sl', sl_keystroke sl b = Some sl' ∧ pending sl' k t b 1.
Proof.
  intros (He & Hn & Hu & Hrl & Hrc & Hbl & Hbc & Hk & Ht) Hb Hl.
  unfold sl_keystroke. rewrite Hrl, Hrc, Hbl, Hbc, !Z.ltb_irrefl, He. simpl.
  rewrite Z.mod_small by lia.
  destruct (Z.eqb_spec b 27); [lia|].
  destruct (Z.eqb_spec b 8); [lia|].
  destruct (Z.eqb_spec b 127); [lia|]. simpl.
  unfold sl_compose. rewrite Hn. simpl.
  rewrite list_lookup_insert_eq by lia. simpl.
  destruct (Z.ltb_spec (0 + 1) (utf8_len b)); [|lia].
  eexists. split; [done|].
  unfold pending; simpl. rewrite length_insert.
  repeat split; try done. apply list_lookup_insert_eq. lia.
Qed.

(** A continuation byte joins the pending sequence; the last one completes
    the codepoint. *)
Lemma keystroke_cont sl k t lead n c :
  pending sl k t lead n → 0 < n → 128 <= c < 192 →
  n + 1 <= utf8_len lead → utf8_len lead <= 4 →
  ∃ sl', sl_keystroke sl c = Some sl' ∧
         if decide (n + 1 = utf8_len lead)
         then at_rest sl' (k + 1) (t + n + 1)
         else pending sl' k t lead (n + 1).
Proof using granted.
  intros (He & Hn & Hu & Hld & Hrl & Hrc & Hbl & Hbc & Hk & Ht) Hpos Hc Hle H4.
  unfold sl_keystroke. rewrite Hrl, Hrc, Hbl, Hbc, !Z.ltb_irrefl, He. simpl.
  rewrite Z.mod_small by lia.
  destruct (Z.eqb_spec c 27); [lia|].
  destruct (Z.eqb_spec c 8); [lia|].
  destruct (Z.eqb_spec c 127); [lia|]. simpl.
  unfold sl_compose. rewrite Hn, is_cont_range by done.
  rewrite andb_false_r.
  rewrite list_lookup_insert_ne, Hld by lia. simpl.
  destruct (Z.ltb_spec (n + 1) (utf8_len lead));
    destruct (decide (n + 1 = utf8_len lead)); try lia.
  - eexists. split; [done|].
    unfold pending; simpl. rewrite length_insert.
    repeat split; try done. rewrite list_lookup_insert_ne by lia. done.
  - destruct (sl_insert_at_end
                (set_ubuf sl (<[Z.to_nat n := c]> (ubuf sl)) (n + 1))
                (take (Z.to_nat (n + 1)) (<[Z.to_nat n := c]> (ubuf sl)))
                k t) as (sl' & Hs & Hr); simpl; try done.
    { by rewrite length_insert. }
    exists sl'. split; [done|].
    rewrite length_take, length_insert, Hu in Hr.
    replace (t + n + 1) with (t + Z.of_nat (Z.to_nat (n + 1) `min` 6)) by lia.
    done.
Qed.

Lemma sl_feed_app sl a b :
  sl_feed sl (a ++ b) = sl_feed sl a ≫= λ sl', sl_feed sl' b.
Proof.
  revert sl. induction a as [|x a IH]; intros sl; simpl; [done|].
  destruct (sl_keystroke sl x); simpl; [apply IH|done].
Qed.

(** One codepoint, byte by byte: one rune more, and as many bytes as its
    encoding has. *)
Lemma at_rest_cast sl k t t' : at_rest sl k t → t = t' → at_rest sl k t'.
Proof. by intros H <-. Qed.

Lemma feed_codepoint sl k t cp :
  at_rest sl k t → scalar_value cp → ¬ control_key cp →
  ∃ sl', sl_feed sl (utf8_encode cp) = Some sl' ∧
         at_rest sl' (k + 1) (t + Z.of_nat (length (utf8_encode cp))).
Proof using granted.
  intros Hrest Hcp Hctl. unfold utf8_encode.
  assert (0 <= cp < 1114112) as Hr by (destruct Hcp; div_lia).
  destruct (Z.ltb_spec cp 128) as [Ha|Ha].
  { destruct (keystroke_single sl k t cp Hrest) as (sl1 & H1 & R1);
      [div_lia|done|apply utf8_len_ascii; div_lia|].
    exists sl1. simpl. rewrite H1. done. }
  destruct (Z.ltb_spec cp 2048) as [Hb|Hb].
  { destruct (keystroke_lead sl k t (192 + cp `div` 64) Hrest)
      as (sl1 & H1 & R1); [div_lia|rewrite utf8_len_2; div_lia|].
    destruct (keystroke_cont sl1 k t _ 1 (128 + cp `mod` 64) R1)
      as (sl2 & H2 & R2); [div_lia|div_lia|rewrite utf8_len_2; div_lia..|].
    rewrite utf8_len_2, decide_True in R2 by div_lia.
    exists sl2. simpl. rewrite H1. simpl. rewrite H2. simpl.
    split; [done|]. apply (at_rest_cast _ _ _ _ R2). simpl length. lia. }
  destruct (Z.ltb_spec cp 65536) as [Hc|Hc].
  { destruct (keystroke_lead sl k t (224 + cp `div` 4096) Hrest)
      as (sl1 & H1 & R1); [div_lia|rewrite utf8_len_3; div_lia|].
    destruct (keystroke_cont sl1 k t _ 1 (128 + (cp `div` 64) `mod` 64) R1)
      as (sl2 & H2 & R2); [div_lia|div_lia|rewrite utf8_len_3; div_lia..|].
    rewrite utf8_len_3, decide_False in R2 by div_lia.
    destruct (keystroke_cont sl2 k t _ 2 (128 + cp `mod` 64) R2)
      as (sl3 & H3 & R3); [div_lia|div_lia|rewrite utf8_len_3; div_lia..|].
    rewrite utf8_len_3, decide_True in R3 by div_lia.
    exists sl3. simpl. rewrite H1. simpl. rewrite H2. simpl.
    rewrite H3. simpl.
    split; [done|]. apply (at_rest_cast _ _ _ _ R3). simpl length. lia. }
  destruct (keystroke_lead sl k t (240 + cp `div` 262144) Hrest)
    as (sl1 & H1 & R1); [div_lia|rewrite utf8_len_4; div_lia|].
  destruct (keystroke_cont sl1 k t _ 1 (128 + (cp `div` 4096) `mod` 64) R1)
    as (sl2 & H2 & R2); [div_lia|div_lia|rewrite utf8_len_4; div_lia..|].
  rewrite utf8_len_4, decide_False in R2 by div_lia.
  destruct (keystroke_cont sl2 k t _ 2 (128 + (cp `div` 64) `mod` 64) R2)
    as (sl3 & H3 & R3); [div_lia|div_lia|rewrite utf8_len_4; div_lia..|].
  rewrite utf8_len_4, decide_False in R3 by div_lia.
  destruct (keystroke_cont sl3 k t _ 3 (128 + cp `mod` 64) R3)
    as (sl4 & H4 & R4); [div_lia|div_lia|rewrite utf8_len_4; div_lia..|].
  rewrite utf8_len_4, decide_True in R4 by div_lia.
  exists sl4. simpl. rewrite H1. simpl. rewrite H2. simpl.
  rewrite H3. simpl. rewrite H4. simpl.
  split; [done|]. apply (at_rest_cast _ _ _ _ R4). simpl length. lia.
Qed.

Lemma feed_codepoints cps : ∀ sl k t,
  at_rest sl k t →
  Forall scalar_value cps → Forall (λ cp, ¬ control_key cp) cps →
  ∃ sl', sl_feed sl (concat (utf8_encode <$> cps)) = Some sl' ∧
         at_rest sl' (k + Z.of_nat (length cps))
                 (t + Z.of_nat (length (concat (utf8_encode <$> cps)))).
Proof using granted.
  induction cps as [|cp cps IH]; intros sl k t Hrest Hs Hc; simpl.
  - exists sl. split; [done|]. by rewrite !Z.add_0_r.
  - apply Forall_cons in Hs as [Hs1 Hs]. apply Forall_cons in Hc as [Hc1 Hc].
    destruct (feed_codepoint sl k t cp Hrest Hs1 Hc1) as (sl1 & H1 & R1).
    destruct (IH sl1 _ _ R1 Hs Hc) as (sl2 & H2 & R2).
    exists sl2. rewrite sl_feed_app, H1. simpl. split; [done|].
    rewrite length_app.
    assert (at_rest sl2 (k + Z.of_nat (S (length cps)))
                    (t + Z.of_nat (length (utf8_encode cp))
                       + Z.of_nat (length (concat (utf8_encode <$> cps)))))
      as R3 by (by replace (k + Z.of_nat (S (length cps)))
                  with (k + 1 + Z.of_nat (length cps)) by lia).
    rewrite Nat2Z.inj_add, Z.add_assoc. exact R3.
Qed.

End Granted.

(** ** Typed text stays inside the buffer *)

Lemma with_text_length (b t : list Z) :
  (length t < length b)%nat → length (with_text b t) = length b.
Proof.
  intros H. unfold with_text. rewrite length_app. simpl.
  rewrite length_drop. lia.
Qed.

Lemma sl_grow_fits sl need b cap :
  bufsize sl = Z.of_nat (length (buf sl)) →
  sl_grow sl need = Some (b, cap) →
  cap = Z.of_nat (length b) ∧ need <= cap.
Proof.
  intros Hsz. unfold sl_grow.
  destruct (Z.leb_spec need (bufsize sl)); [intros [= <- <-]; lia|].
  destruct (alloc_ok _); [|done]. intros [= <- <-].
  rewrite length_app, length_replicate. lia.
Qed.

Lemma sl_insert_typed_ok sl u sl' :
  typed_ok sl → sl_insert sl u = Some sl' → typed_ok sl'.
Proof.
  intros (He & Hsz & Hc & Hl & Hr). unfold sl_insert.
  destruct (sl_grow sl _) as [[b cap]|] eqn:Hg; [|done].
  apply sl_grow_fits in Hg as [Hcap Hneed]; [|done].
  simpl. intros [= <-]. unfold typed_ok; simpl.
  assert (length (text sl) = Z.to_nat (blen sl)) as Ht
    by (unfold text; rewrite length_take; lia).
  rewrite with_text_length.
  - repeat split; try done; lia.
  - rewrite !length_app, length_take, length_drop, Ht. lia.
Qed.

Lemma sl_compose_typed_ok sl b sl' :
  typed_ok sl → sl_compose sl b = Some sl' → typed_ok sl'.
Proof.
  intros Hok. unfold sl_compose.
  destruct (_ <? utf8_len _).
  - by intros [= <-].
  - by apply sl_insert_typed_ok.
Qed.

(** A key other than the control keys keeps the line in its buffer. *)
Lemma sl_keystroke_typed_ok sl key sl' :
  typed_ok sl → ¬ control_key (key `mod` 256) →
  sl_keystroke sl key = Some sl' → typed_ok sl'.
Proof.
  intros Hok Hc. unfold sl_keystroke.
  destruct (_ || _); [done|].
  destruct Hok as (He & Hrest). rewrite He.
  destruct (Z.eqb_spec (key `mod` 256) 27); [destruct Hc; by left|].
  destruct (Z.eqb_spec (key `mod` 256) 8); [destruct Hc; right; by left|].
  destruct (Z.eqb_spec (key `mod` 256) 127); [destruct Hc; right; by right|].
  simpl. by apply sl_compose_typed_ok.
Qed.

Lemma sl_feed_typed_ok keys : ∀ sl sl',
  typed_ok sl → Forall (λ key, ¬ control_key (key `mod` 256)) keys →
  sl_feed sl keys = Some sl' → typed_ok sl'.
Proof.
  induction keys as [|key keys IH]; intros sl sl' Hok Hk; simpl.
  - by intros [= <-].
  - apply Forall_cons in Hk as [Hk1 Hk].
    destruct (sl_keystroke sl key) as [sl1|] eqn:H1; [|done]. simpl.
    apply (IH sl1); [|done]. by apply (sl_keystroke_typed_ok sl key).
Qed.

Lemma sl_init_typed_ok : typed_ok sl_init.
Proof using BUFSIZ_min.
  unfold typed_ok, sl_init; simpl. rewrite length_replicate.
  repeat split; try done; lia.
Qed.

(** What [line_output] and the redraw rely on: the line and its sentinel lie
    in the buffer. *)
Lemma typed_ok_line_in_buffer sl :
  typed_ok sl → 0 <= len sl < Z.of_nat (length (buf sl)).
Proof. intros (_ & Hsz & Hc & Hl & _). unfold len. lia. Qed.

Lemma sl_init_at_rest : at_rest sl_init 0 0.
Proof. unfold at_rest, sl_init; simpl. by repeat split. Qed.

(** C3, as the engine of the spec has it.  Codepoints other than the control
    keys ESC, BS and DEL, typed byte by byte into a fresh buffer with every
    growth of the buffer granted, leave as many runes as there are codepoints
    and as many bytes as their encodings have. *)
Theorem utf8_feed_counts_runes_and_bytes (cps : list Z) :
  (∀ n, alloc_ok n = true) →
  Forall scalar_value cps →
  Forall (λ cp, ¬ control_key cp) cps →
  ∃ sl, sl_feed sl_init (concat (utf8_encode <$> cps)) = Some sl ∧
        rlen sl = Z.of_nat (length cps) ∧
        blen sl = Z.of_nat (length (concat (utf8_encode <$> cps))).
Proof.
  intros Hg Hs Hc.
  destruct (feed_codepoints Hg cps sl_init 0 0 sl_init_at_rest Hs Hc)
    as (sl & Hf & Hr).
  exists sl. split; [done|].
  destruct Hr as (_ & _ & _ & Hrl & _ & Hbl & _). split; lia.
Qed.

(** * Further properties of lchat.c *)

(** ** Strings in arrays *)

Lemma cstr_until_nul (l r : list Z) : cstr (l ++ 0 :: r) = Some (until_nul l).
Proof.
  induction l as [|b l IH]; simpl; [done|].
  destruct (b =? 0); [done|]. by rewrite IH.
Qed.

Lemma cstr_insert_until_nul (a : list Z) (i : nat) :
  (i < length a)%nat → cstr (<[i := 0]> a) = Some (until_nul (take i a)).
Proof.
  intros Hi.
  rewrite <- (take_drop i a) at 1.
  rewrite insert_app_r_alt by (rewrite length_take; lia).
  rewrite length_take, Nat.min_l, Nat.sub_diag by lia.
  destruct (drop i a) as [|x r] eqn:Hd.
  { apply (f_equal length) in Hd. rewrite length_drop in Hd. simpl in Hd. lia. }
  simpl. apply cstr_until_nul.
Qed.

Lemma until_nul_clean (l : list Z) :
  Forall (λ b, b ≠ 0) l → until_nul l = l.
Proof.
  induction 1 as [|b l Hb _ IH]; simpl; [done|].
  destruct (Z.eqb_spec b 0); [done|]. by rewrite IH.
Qed.

Lemma until_nul_app_nul (l r : list Z) :
  Forall (λ b, b ≠ 0) l → until_nul (l ++ 0 :: r) = l.
Proof.
  induction 1 as [|b l Hb _ IH]; simpl; [done|].
  destruct (Z.eqb_spec b 0); [done|]. by rewrite IH.
Qed.

(** The newline of a line read by fgets is deleted; what strdup copies then
    ends before the first newline or NUL. *)
Lemma cstr_cut_newline (l r : list Z) :
  cstr (match strchr (l ++ 0 :: r) 10 with
        | Some i => <[i := 0]> (l ++ 0 :: r)
        | None => l ++ 0 :: r
        end) = Some (line_of l).
Proof.
  induction l as [|b l IH]; simpl; [done|].
  destruct (Z.eqb_spec b 10) as [->|Hn]; [done|].
  destruct (Z.eqb_spec b 0) as [->|Hz]; simpl; [done|].
  destruct (strchr (l ++ 0 :: r) 10) as [i|]; simpl;
    rewrite (proj2 (Z.eqb_neq b 0)) by done; by rewrite IH.
Qed.

Lemma line_of_get_line (n : nat) : ∀ d,
  line_of (get_line n d) = line_of (take n d).
Proof.
  induction n as [|n IH]; intros [|b d]; simpl; try done.
  destruct (Z.eqb_spec b 10) as [->|Hn]; simpl; [done|].
  by rewrite IH.
Qed.

Lemma line_of_prefix (d : list Z) : line_of d `prefix_of` d.
Proof.
  induction d as [|b d IH]; simpl; [done|].
  destruct (_ || _); [apply prefix_nil|by apply prefix_cons].
Qed.

Lemma line_of_clean (d : list Z) :
  Forall (λ b, b ≠ 10 ∧ b ≠ 0) (line_of d).
Proof.
  induction d as [|b d IH]; simpl; [done|].
  destruct (Z.eqb_spec b 10); simpl; [done|].
  destruct (Z.eqb_spec b 0); simpl; [done|].
  by constructor.
Qed.

Lemma line_of_whole (l r : list Z) :
  Forall (λ b, b ≠ 10 ∧ b ≠ 0) l → line_of (l ++ 10 :: r) = l.
Proof.
  induction 1 as [|b l [Hn Hz] _ IH]; simpl; [done|].
  destruct (Z.eqb_spec b 10); [done|].
  destruct (Z.eqb_spec b 0); [done|]. simpl. by rewrite IH.
Qed.

Lemma get_line_nil_inv (n : nat) (d : list Z) :
  get_line n d = [] → n = 0%nat ∨ d = [].
Proof. destruct n, d; simpl; auto; done. Qed.

(** ** The first line of a file *)

(** [read_file_line] on a file that may be read and holds some byte. *)
Lemma read_file_line_run file f w :
  w_fs w !! file = Some f → f_readable f = true → f_data f ≠ [] →
  let fh := fresh_key (w_fds w) in
  let w' := World (w_fs w) (w_fds w) (w_procs w) (w_tty w)
                  (w_trace w ++ [EvOpen file fh; EvClose fh]) in
  let line := line_of (take (Z.to_nat (BUFSIZ - 1)) (f_data f)) in
  read_file_line file w =
    (w', if alloc_ok (Z.of_nat (length line) + 1)
         then Ret (Some line) else Exit EXIT_FAILURE).
Proof.
  intros Hf Hr Hd fh w' line.
  pose proof (fresh_key_unused (w_fds w)) as Hnew. fold fh in Hnew.
  unfold read_file_line, mbind, io_bind, sys_access, sys_fopen.
  rewrite Hf, Hr. simpl. rewrite Hf, Hr. fold fh.
  unfold sys_fgets. simpl. rewrite lookup_insert_eq, Hf. simpl.
  change (drop 0 (f_data f)) with (f_data f).
  destruct (get_line (Z.to_nat (BUFSIZ - 1)) (f_data f)) as [|b l] eqn:Hg.
  { apply get_line_nil_inv in Hg as [Hg|Hg]; [lia|done]. }
  pose proof (cstr_cut_newline (b :: l)
                (drop (S (length (b :: l))) stack_buf)) as Hcut.
  fold (with_text stack_buf (b :: l)) in Hcut.
  remember (with_text stack_buf (b :: l)) as arr eqn:Harr.
  unfold sys_fclose, sys_close. simpl. rewrite lookup_insert_eq. simpl.
  rewrite delete_insert_eq, delete_insert_id by done.
  unfold must. rewrite Hcut.
  rewrite <- Hg, line_of_get_line. fold line.
  rewrite <- (assoc_L (++)). simpl. fold w'.
  unfold mret, io_ret, exit. by destruct (alloc_ok _).
Qed.

Lemma read_file_line_cases file w w' r :
  read_file_line file w = (w', Ret r) →
  (r = None ∧ w' = w ∧ unreadable w file) ∨
  (∃ f, w_fs w !! file = Some f ∧ f_readable f = true ∧ f_data f ≠ [] ∧
        r = Some (line_of (take (Z.to_nat (BUFSIZ - 1)) (f_data f))) ∧
        w' = World (w_fs w) (w_fds w) (w_procs w) (w_tty w)
                   (w_trace w ++ [EvOpen file (fresh_key (w_fds w));
                                  EvClose (fresh_key (w_fds w))])).
Proof.
  intros H.
  destruct (w_fs w !! file) as [f|] eqn:Hf.
  - destruct (f_readable f) eqn:Hr.
    + destruct (f_data f) as [|b d] eqn:Hd.
      * pose proof (read_file_line_empty_file file f w Hf Hr Hd) as He.
        rewrite H in He. done.
      * right. exists f.
        assert (f_data f ≠ []) as Hne by by rewrite Hd.
        rewrite (read_file_line_run file f w Hf Hr Hne) in H.
        rewrite Hd in H. rewrite Hd.
        destruct (alloc_ok _); [|done]. by simplify_eq.
    + left. rewrite read_file_line_unreadable in H
        by (unfold unreadable; by rewrite Hf).
      by simplify_eq; unfold unreadable; rewrite Hf.
  - left. rewrite read_file_line_unreadable in H
        by (unfold unreadable; by rewrite Hf).
    by simplify_eq; unfold unreadable; rewrite Hf.
Qed.

(** X1. A file that may be read and starts with a line free of NUL, of
    fewer than BUFSIZ - 1 bytes and closed by a newline, yields that line
    without the newline.  The stream is closed again: the world differs by
    the open and the close in the trace alone. *)
Theorem read_file_line_first_line file f w line rest :
  w_fs w !! file = Some f →
  f_readable f = true →
  f_data f = line ++ 10 :: rest →
  Forall (λ b, b ≠ 10 ∧ b ≠ 0) line →
  Z.of_nat (length line) < BUFSIZ - 1 →
  alloc_ok (Z.of_nat (length line) + 1) = true →
  let fh := fresh_key (w_fds w) in
  read_file_line file w =
    (World (w_fs w) (w_fds w) (w_procs w) (w_tty w)
           (w_trace w ++ [EvOpen file fh; EvClose fh]),
     Ret (Some line)).
Proof.
  intros Hf Hr Hd Hc Hl Ha fh.
  assert (f_data f ≠ []) as Hne by (rewrite Hd; by destruct line).
  rewrite (read_file_line_run file f w Hf Hr Hne). fold fh.
  assert (line_of (take (Z.to_nat (BUFSIZ - 1)) (f_data f)) = line) as ->.
  { rewrite Hd, take_app. 
    replace (Z.to_nat (BUFSIZ - 1) - length line)%nat
      with (S (Z.to_nat (BUFSIZ - 1) - length line - 1)) by lia.
    rewrite take_ge by lia. simpl. by apply line_of_whole. }
  by rewrite Ha.
Qed.

(** X2. Whatever line [read_file_line] returns is a prefix of the file's
    content, holds neither newline nor NUL, and has at most BUFSIZ - 1
    bytes: a longer first line is cut there without notice. *)
Theorem read_file_line_result_bounds file w w' line :
  read_file_line file w = (w', Ret (Some line)) →
  ∃ f, w_fs w !! file = Some f ∧
       line `prefix_of` f_data f ∧
       Forall (λ b, b ≠ 10 ∧ b ≠ 0) line ∧
       Z.of_nat (length line) <= BUFSIZ - 1.
Proof.
  intros H. apply read_file_line_cases in H as [(? & _)|(f & Hf & _ & _ & Hl & _)];
    [done|].
  injection Hl as ->. exists f. split; [done|]. split; [|split].
  - etrans; [apply line_of_prefix|apply prefix_take].
  - apply line_of_clean.
  - pose proof (prefix_length _ _ (line_of_prefix
                  (take (Z.to_nat (BUFSIZ - 1)) (f_data f)))) as Hp.
    rewrite length_take in Hp. lia.
Qed.

(** X3. When [read_file_line] returns, with a line or with NULL, no file
    has changed, no stream is left open, no child has been started and
    nothing was sent to the terminal. *)
Theorem read_file_line_leaves_world file w w' r :
  read_file_line file w = (w', Ret r) →
  w_fs w' = w_fs w ∧ w_fds w' = w_fds w ∧
  w_procs w' = w_procs w ∧ w_tty w' = w_tty w.
Proof.
  intros H.
  apply read_file_line_cases in H as [(_ & -> & _)|(f & _ & _ & _ & _ & ->)];
    done.
Qed.

(** ** A commit without outbound file *)

Lemma line_output_no_file sl file w :
  (w_fs w !! file = None ∨
   ∃ f, w_fs w !! file = Some f ∧ f_writable f = false) →
  line_output sl file w = (w, Exit EXIT_FAILURE).
Proof.
  intros Hf. unfold line_output, mbind, io_bind, sys_open_append.
  destruct Hf as [->|(f & -> & ->)]; done.
Qed.

(** X4. [line_output] opens without O_CREAT: when the outbound file does not
    exist, or may not be written, the return key on a line to be sent ends
    the process with EXIT_FAILURE.  The iteration has erased the old prompt
    line by then and nothing else: no file is created or changed, and the
    typed line is not put out anywhere. *)
Theorem commit_without_file_exits cfg inp ins st w :
  flag_set (in_revents0 inp) POLLIN = true →
  in_key inp = 13 →
  len (st_sl st) ≠ 0 ∨ empty_line cfg = true →
  (w_fs w !! in_file cfg = None ∨
   ∃ f, w_fs w !! in_file cfg = Some f ∧ f_writable f = false) →
  ∃ pre,
    loop_preamble (st_loverhang st) w = (emit w pre, Ret ()) ∧
    main_loop cfg (inp :: ins) st w = (emit w pre, Exit EXIT_FAILURE).
Proof.
  intros Hin Hkey Hne Hf.
  destruct (loop_preamble_run (st_loverhang st) w) as [pre Hpre].
  exists pre. split; [done|].
  simpl. unfold mbind, io_bind at 1. unfold iteration, mbind, io_bind.
  rewrite Hpre. unfold handle_keyboard. rewrite Hin, Hkey. simpl.
  assert ((len (st_sl st) =? 0) && negb (empty_line cfg) = false) as ->.
  { destruct Hne as [Hl| ->]; [|by rewrite andb_false_r].
    by destruct (Z.eqb_spec (len (st_sl st)) 0). }
  unfold mbind, io_bind.
  by rewrite (line_output_no_file (st_sl st) (in_file cfg) (emit w pre)).
Qed.

(** ** What the feed hands to grep *)

(** A feed update with the bell enabled and a pattern file at hand: the
    bytes read go to the terminal, and grep reads the string that the array
    holds once it is closed by a NUL. *)
Lemma handle_feed_grep cfg inp avail f w :
  bell_flag cfg = true →
  flag_set (in_revents1 inp) POLLIN = true →
  in_feed inp = Some avail →
  avail ≠ [] →
  w_fs w !! bell_file cfg = Some f →
  f_readable f = true →
  let got := take (Z.to_nat BUFSIZ) avail in
  let n := Z.of_nat (length got) in
  let idx := Z.to_nat (if n =? BUFSIZ then n - 1 else n) in
  let sent := until_nul (take idx got) in
  let cmd := snprintf_buf ("exec grep -qf " +:+ bell_file cfg) in
  let status := shell cmd (w_fs w) sent in
  handle_feed cfg inp w =
    (World (w_fs w) (w_fds w) (w_procs w)
           (w_tty w ++ got ++ (if status =? 0 then [7] else []))
           (w_trace w ++ [EvRun cmd sent status]),
     Ret ()).
Proof.
  intros Hb Hin Hfeed Havail Hf Hr got n idx sent cmd status.
  pose proof (handle_feed_run cfg inp avail w Hin Hfeed Havail) as Hrun.
  pose proof (feed_got_bounds avail Havail) as Hn.
  pose proof (feed_arr_length avail Havail) as Hl.
  simpl in Hrun. fold got in Hrun, Hn, Hl. fold n in Hrun, Hn.
  fold idx in Hrun.
  assert (idx ≤ length got)%nat as Hi
    by (subst idx; destruct (Z.eqb_spec n BUFSIZ); lia).
  assert (idx < length (read_into stack_buf got))%nat as Hi'
    by (subst idx; destruct (Z.eqb_spec n BUFSIZ); lia).
  assert (cstr (<[idx := 0]> (read_into stack_buf got)) = Some sent) as Hs.
  { rewrite cstr_insert_until_nul by done.
    unfold read_into. by rewrite take_app_le. }
  rewrite Hrun. unfold alert. rewrite Hb.
  unfold mbind, io_bind.
  rewrite (bell_match_run _ sent (bell_file cfg) f (emit w got)) by done.
  simpl. fold cmd status.
  destruct (status =? 0); unfold put, mret, io_ret, emit; simpl;
    by rewrite <- ?(assoc_L (++)), ?app_nil_r.
Qed.

Lemma until_nul_prefix (l : list Z) : until_nul l `prefix_of` l.
Proof.
  induction l as [|b l IH]; simpl; [done|].
  destruct (b =? 0); [apply prefix_nil|by apply prefix_cons].
Qed.

Lemma until_nul_no_nul (l : list Z) : Forall (λ b, b ≠ 0) (until_nul l).
Proof.
  induction l as [|b l IH]; simpl; [done|].
  destruct (Z.eqb_spec b 0); [done|]. by constructor.
Qed.

(** C6, as the code has it.  With the bell enabled, the array that holds a
    read of n bytes is closed by a NUL and handed to [bell_match], which
    reads it as a string and sends that string to grep: the predicate
    receives the bytes read that come before the first NUL among the first
    n of them, or among the first BUFSIZ - 1 when the read has filled the
    array.  These are exactly the n bytes read when n is less than BUFSIZ
    and none of them is NUL, and the first BUFSIZ - 1 of them, the last one
    given up for the NUL, when the read has filled the array and none of
    those is NUL. *)
Theorem bell_receives_string_of_read cfg inp avail w :
  bell_flag cfg = true →
  flag_set (in_revents1 inp) POLLIN = true →
  in_feed inp = Some avail →
  avail ≠ [] →
  let got := take (Z.to_nat BUFSIZ) avail in
  let n := Z.of_nat (length got) in
  let sent :=
    until_nul (take (Z.to_nat (if n =? BUFSIZ then n - 1 else n)) got) in
  (∃ arg,
     cstr arg = Some sent ∧
     handle_feed cfg inp w =
       (m ← bell_match arg (bell_file cfg);
        if (m : bool) then put [7] else mret ()) (emit w got)) ∧
  (∀ f, w_fs w !! bell_file cfg = Some f → f_readable f = true →
        let cmd := snprintf_buf ("exec grep -qf " +:+ bell_file cfg) in
        let status := shell cmd (w_fs w) sent in
        handle_feed cfg inp w =
          (World (w_fs w) (w_fds w) (w_procs w)
                 (w_tty w ++ got ++ (if status =? 0 then [7] else []))
                 (w_trace w ++ [EvRun cmd sent status]),
           Ret ())) ∧
  sent `prefix_of` got ∧
  Forall (λ b, b ≠ 0) sent ∧
  (n < BUFSIZ → Forall (λ b, b ≠ 0) got → sent = got) ∧
  (n = BUFSIZ →
   Forall (λ b, b ≠ 0) (take (Z.to_nat (BUFSIZ - 1)) got) →
   sent = take (Z.to_nat (BUFSIZ - 1)) got).
Proof.
  intros Hb Hin Hfeed Havail got n sent.
  pose proof (handle_feed_run cfg inp avail w Hin Hfeed Havail) as Hrun.
  pose proof (feed_got_bounds avail Havail) as Hn.
  pose proof (feed_arr_length avail Havail) as Hl.
  simpl in Hrun. fold got in Hrun, Hn, Hl. fold n in Hrun, Hn.
  set (idx := Z.to_nat (if n =? BUFSIZ then n - 1 else n)) in *.
  assert (idx ≤ length got)%nat as Hi
    by (subst idx; destruct (Z.eqb_spec n BUFSIZ); lia).
  assert (idx < length (read_into stack_buf got))%nat as Hi'
    by (subst idx; destruct (Z.eqb_spec n BUFSIZ); lia).
  split; [|split; [|split; [|split; [|split]]]].
  - exists (<[idx := 0]> (read_into stack_buf got)). split.
    + rewrite cstr_insert_until_nul by done.
      unfold read_into. by rewrite take_app_le.
    + rewrite Hrun. unfold alert. by rewrite Hb.
  - intros f Hf Hr.
    by apply (handle_feed_grep cfg inp avail f w).
  - etrans; [apply until_nul_prefix|apply prefix_take].
  - apply until_nul_no_nul.
  - intros Hlt Hclean. subst sent idx.
    destruct (Z.eqb_spec n BUFSIZ) as [|_]; [lia|].
    rewrite take_ge by lia. by apply until_nul_clean.
  - intros Heq Hclean. subst sent idx.
    destruct (Z.eqb_spec n BUFSIZ) as [_|]; [|lia].
    rewrite Heq. by apply until_nul_clean.
Qed.

(** X5. A NUL byte in the feed cuts what the bell sees: all bytes read reach
    the terminal, but grep reads only those before the first NUL, and the
    bell rings on them alone. *)
Theorem feed_nul_hides_rest_from_grep cfg inp avail f w seen rest :
  bell_flag cfg = true →
  flag_set (in_revents1 inp) POLLIN = true →
  in_feed inp = Some avail →
  w_fs w !! bell_file cfg = Some f →
  f_readable f = true →
  take (Z.to_nat BUFSIZ) avail = seen ++ 0 :: rest →
  Forall (λ b, b ≠ 0) seen →
  let got := seen ++ 0 :: rest in
  let cmd := snprintf_buf ("exec grep -qf " +:+ bell_file cfg) in
  let status := shell cmd (w_fs w) seen in
  handle_feed cfg inp w =
    (World (w_fs w) (w_fds w) (w_procs w)
           (w_tty w ++ got ++ (if status =? 0 then [7] else []))
           (w_trace w ++ [EvRun cmd seen status]),
     Ret ()).
Proof.
  intros Hb Hin Hfeed Hf Hr Hgot Hseen got cmd status.
  assert (avail ≠ []) as Havail
    by (intros ->; rewrite take_nil in Hgot; by destruct seen).
  pose proof (feed_got_bounds avail Havail) as Hn.
  rewrite (handle_feed_grep cfg inp avail f w) by done.
  cbv zeta. rewrite Hgot in Hn |- *.
  set (n := Z.of_nat (length (seen ++ 0 :: rest))) in *.
  set (idx := Z.to_nat (if n =? BUFSIZ then n - 1 else n)).
  assert (n = Z.of_nat (length seen) + 1 + Z.of_nat (length rest)) as Hlen
    by (subst n; rewrite length_app; simpl; lia).
  assert (length seen ≤ idx)%nat as Hi
    by (subst idx; destruct (Z.eqb_spec n BUFSIZ); lia).
  assert (until_nul (take idx (seen ++ 0 :: rest)) = seen) as ->; [|done].
  rewrite take_app.
  destruct (idx - length seen)%nat as [|k] eqn:Hk; simpl.
  - rewrite app_nil_r, take_ge by lia. by apply until_nul_clean.
  - rewrite take_ge by lia. by apply until_nul_app_nul.
Qed.

(** X6. A read that fills the array: all BUFSIZ bytes reach the terminal,
    but the NUL takes the place of the last one, so that grep reads the
    first BUFSIZ - 1 bytes and the last byte shown takes no part in the
    decision on the bell. *)
Theorem feed_full_read_withholds_last_byte cfg inp avail f w :
  bell_flag cfg = true →
  flag_set (in_revents1 inp) POLLIN = true →
  in_feed inp = Some avail →
  BUFSIZ <= Z.of_nat (length avail) →
  w_fs w !! bell_file cfg = Some f →
  f_readable f = true →
  Forall (λ b, b ≠ 0) (take (Z.to_nat (BUFSIZ - 1)) avail) →
  let shown := take (Z.to_nat BUFSIZ) avail in
  let sent := take (Z.to_nat (BUFSIZ - 1)) avail in
  let cmd := snprintf_buf ("exec grep -qf " +:+ bell_file cfg) in
  let status := shell cmd (w_fs w) sent in
  handle_feed cfg inp w =
    (World (w_fs w) (w_fds w) (w_procs w)
           (w_tty w ++ shown ++ (if status =? 0 then [7] else []))
           (w_trace w ++ [EvRun cmd sent status]),
     Ret ()).
Proof.
  intros Hb Hin Hfeed Hlen Hf Hr Hclean shown sent cmd status.
  assert (avail ≠ []) as Havail
    by (intros ->; simpl in Hlen; lia).
  rewrite (handle_feed_grep cfg inp avail f w) by done.
  cbv zeta. fold shown.
  assert (Z.of_nat (length shown) = BUFSIZ) as Hn
    by (subst shown; rewrite length_take; lia).
  rewrite Hn, Z.eqb_refl.
  assert (until_nul (take (Z.to_nat (BUFSIZ - 1)) shown) = sent) as ->;
    [|done].
  subst shown. rewrite take_take, Nat.min_l by lia.
  by apply until_nul_clean.
Qed.

(** X7. With the bell disabled (option -a) a feed update starts no child
    and rings no bell: the bytes read go to the terminal and that is all. *)
Theorem feed_without_bell_runs_nothing cfg inp avail w :
  bell_flag cfg = false →
  flag_set (in_revents1 inp) POLLIN = true →
  in_feed inp = Some avail →
  avail ≠ [] →
  handle_feed cfg inp w = (emit w (take (Z.to_nat BUFSIZ) avail), Ret ()).
Proof.
  intros Hb Hin Hfeed Havail.
  rewrite (handle_feed_run cfg inp avail w Hin Hfeed Havail).
  unfold alert. by rewrite Hb.
Qed.

(** ** A wakeup without event *)

(** X8. A wakeup of poll with nothing to read and no hangup (the revents
    are clear, as after a signal) reads no key and no feed: the iteration
    erases the prompt line and draws it again from the unchanged buffer,
    touches no file, and the loop goes on. *)
Theorem idle_wakeup_only_redraws cfg inp st w s ins :
  flag_set (in_revents0 inp) POLLIN = false →
  flag_set (in_revents1 inp) POLLIN = false →
  flag_set (in_revents1 inp) POLLHUP = false →
  cstr (buf (st_sl st)) = Some s →
  0 < in_ws_col inp →
  ∃ pre w2 lo,
    loop_preamble (st_loverhang st) w = (emit w pre, Ret ()) ∧
    redraw cfg inp (st_sl st) (emit w pre) = (w2, Ret lo) ∧
    main_loop cfg (inp :: ins) st w =
      main_loop cfg ins (LoopState (st_sl st) lo) w2 ∧
    w_fs w2 = w_fs w ∧ w_fds w2 = w_fds w ∧ w_procs w2 = w_procs w ∧
    w_trace w2 = w_trace w.
Proof.
  intros Hk Hin Hhup Hs Hc.
  destruct (loop_preamble_run (st_loverhang st) w) as [pre Hpre].
  pose proof (redraw_run cfg inp (st_sl st) (emit w pre) s Hs Hc) as Hre.
  cbv zeta in Hre.
  destruct (redraw cfg inp (st_sl st) (emit w pre)) as [w2 r] eqn:Hrd.
  injection Hre as Hw2 Hr.
  set (lo := size_add (prompt_len cfg) (len (st_sl st)) `div` in_ws_col inp)
    in Hr.
  subst r. exists pre, w2, lo.
  split; [done|]. split; [done|]. split; [|by rewrite Hw2].
  simpl. unfold mbind, io_bind at 1. unfold iteration, mbind, io_bind.
  rewrite Hpre. unfold handle_keyboard, handle_feed.
  rewrite Hk, Hhup, Hin. unfold mret, io_ret.
  by rewrite Hrd.
Qed.

(** ** What the loop does to files, descriptors and children *)

Lemma appended_to_refl path fs : appended_to path fs fs.
Proof.
  split; [done|]. destruct (fs !! path) as [[d r w]|]; [|done].
  exists []. simpl. by rewrite app_nil_r.
Qed.

Lemma appended_to_trans path fs1 fs2 fs3 :
  appended_to path fs1 fs2 → appended_to path fs2 fs3 →
  appended_to path fs1 fs3.
Proof.
  intros [H1 A1] [H2 A2]. split.
  - intros p Hp. by rewrite H2, H1.
  - destruct (fs1 !! path) as [f1|], (fs2 !! path) as [f2|],
      (fs3 !! path) as [f3|]; try done.
    destruct A1 as [m1 ->], A2 as [m2 ->]. simpl.
    exists (m1 ++ m2). by rewrite (assoc_L (++)).
Qed.

Lemma appended_to_insert path fs f data :
  fs !! path = Some f →
  appended_to path fs
    (<[path := File (f_data f ++ data) (f_readable f) (f_writable f)]> fs).
Proof.
  intros Hf. split.
  - intros p Hp. by rewrite lookup_insert_ne.
  - rewrite Hf, lookup_insert_eq. by exists data.
Qed.

Lemma keeps_bind {A B} (R : world → world → Prop) `{!Transitive R}
    (m : io A) (f : A → io B) :
  keeps R m → (∀ a, keeps R (f a)) → keeps R (m ≫= f).
Proof.
  intros Hm Hf w w' r. unfold mbind, io_bind.
  destruct (m w) as [w1 [a|s|]] eqn:E; intros H; simplify_eq.
  - etrans; [by eapply Hm|by eapply Hf].
  - by eapply Hm.
  - by eapply Hm.
Qed.

Lemma keeps_ret_bind {A B} (R : world → world → Prop) `{!Transitive R}
    (m : io A) (f : A → io B) :
  keeps_ret R m → (∀ a, keeps_ret R (f a)) → keeps_ret R (m ≫= f).
Proof.
  intros Hm Hf w w' b. unfold mbind, io_bind.
  destruct (m w) as [w1 [a|s|]] eqn:E; intros H; simplify_eq.
  etrans; [by eapply Hm|by eapply Hf].
Qed.

#[local] Instance same_fs_trans :
  Transitive (λ w w' : world, w_fs w' = w_fs w).
Proof. intros w1 w2 w3 H1 H2. by rewrite H2. Qed.

#[local] Instance same_handles_trans : Transitive same_handles.
Proof. intros w1 w2 w3 [H1 H1'] [H2 H2']. split; congruence. Qed.

#[local] Instance grows_trans path :
  Transitive (λ w w' : world, appended_to path (w_fs w) (w_fs w')).
Proof. intros w1 w2 w3. apply appended_to_trans. Qed.

Lemma fs_const_grows {A} path (m : io A) :
  fs_const m → keeps (λ w w', appended_to path (w_fs w) (w_fs w')) m.
Proof. intros H w w' r E. rewrite (H w w' r E). apply appended_to_refl. Qed.

(** The primitives but [write] on a file leave the files alone. *)
Lemma fs_const_pure {A} (m : io A) :
  (∀ w, fst (m w) = w) → fs_const m.
Proof. intros H w w' r E. specialize (H w). rewrite E in H. by subst. Qed.

Lemma fs_const_put bs : fs_const (put bs).
Proof. by intros w w' r [= <- _]. Qed.

Lemma fs_const_sys_access path : fs_const (sys_access path).
Proof. by intros w w' r [= <- _]. Qed.

Lemma fs_const_sys_popen cmd : fs_const (sys_popen cmd).
Proof. by intros w w' r [= <- _]. Qed.

Lemma fs_const_sys_fputs_pipe t fh : fs_const (sys_fputs_pipe t fh).
Proof.
  intros w w' r. unfold sys_fputs_pipe.
  repeat case_match; by intros [= <- _].
Qed.

Lemma fs_const_sys_pclose fh : fs_const (sys_pclose fh).
Proof.
  intros w w' r. unfold sys_pclose. repeat case_match; by intros [= <- _].
Qed.

Lemma fs_const_sys_write_tty data : fs_const (sys_write 1 data).
Proof. by intros w w' r [= <- _]. Qed.

Lemma fs_const_ret {A} (a : A) : fs_const (mret a).
Proof. by intros w w' r [= <- _]. Qed.

Lemma fs_const_exit {A} s : fs_const (exit (A := A) s).
Proof. by intros w w' r [= <- _]. Qed.

Lemma fs_const_must {A} (o : option A) : fs_const (must o).
Proof. intros w w' r. unfold must. by destruct o; intros [= <- _]. Qed.

Lemma fs_const_bind {A B} (m : io A) (f : A → io B) :
  fs_const m → (∀ a, fs_const (f a)) → fs_const (m ≫= f).
Proof. apply (keeps_bind _). Qed.

Create HintDb frame.

#[local] Hint Resolve fs_const_put fs_const_sys_access fs_const_sys_popen
  fs_const_sys_fputs_pipe fs_const_sys_pclose fs_const_sys_write_tty
  fs_const_ret fs_const_exit fs_const_must : frame.

Ltac frame_step :=
  match goal with
  | |- fs_const (_ ≫= _) => apply fs_const_bind; [|intros ?]
  | |- fs_const (if ?b then _ else _) => destruct b
  | |- fs_const (match ?x with _ => _ end) => destruct x
  | |- fs_const _ => solve [auto with frame]
  end.

Lemma fs_const_bell_match str file : fs_const (bell_match str file).
Proof. unfold bell_match. repeat frame_step. Qed.

Lemma fs_const_loop_preamble lo : fs_const (loop_preamble lo).
Proof. unfold loop_preamble. repeat frame_step. Qed.

#[local] Hint Resolve fs_const_bell_match fs_const_loop_preamble : frame.

Lemma fs_const_handle_feed cfg inp : fs_const (handle_feed cfg inp).
Proof. unfold handle_feed, alert. repeat frame_step. Qed.

Lemma fs_const_redraw cfg inp sl : fs_const (redraw cfg inp sl).
Proof. unfold redraw. repeat frame_step. Qed.

#[local] Hint Resolve fs_const_handle_feed fs_const_redraw : frame.

(** [line_output] with every outcome: the file named is the only one that
    changes, and it changes by bytes at its end. *)
Lemma line_output_grows sl file :
  keeps (λ w w', appended_to file (w_fs w) (w_fs w')) (line_output sl file).
Proof.
  intros w w' r.
  pose proof (fresh_key_ge (w_fds w)) as Hge.
  unfold line_output, mbind, io_bind, sys_open_append.
  destruct (w_fs w !! file) as [f|] eqn:Hf;
    [destruct (f_writable f)|]; simpl;
    try (intros [= <- _]; apply appended_to_refl).
  destruct (Z.eqb_spec (fresh_key (w_fds w)) (-1)) as [|_]; [lia|].
  unfold must.
  destruct (store _ _ _) as [b|]; simpl;
    [|intros [= <- _]; apply appended_to_refl].
  destruct (load _ _) as [data|]; simpl;
    [|intros [= <- _]; apply appended_to_refl].
  unfold sys_write. simpl.
  destruct (Z.eqb_spec (fresh_key (w_fds w)) 1) as [|_]; [lia|].
  rewrite lookup_insert_eq, Hf.
  destruct (Z.eqb_spec (Z.of_nat (length data)) (-1)) as [|_]; [lia|].
  unfold sys_close. simpl. rewrite lookup_insert_eq. simpl.
  intros [= <- _]. simpl. by apply appended_to_insert.
Qed.

Lemma handle_keyboard_grows cfg inp sl :
  keeps (λ w w', appended_to (in_file cfg) (w_fs w) (w_fs w'))
        (handle_keyboard cfg inp sl).
Proof.
  unfold handle_keyboard.
  destruct (flag_set _ _); [|apply fs_const_grows; auto with frame].
  apply (keeps_bind _).
  - destruct (_ =? 13); [|apply fs_const_grows; auto with frame].
    destruct (_ && _); [apply fs_const_grows; auto with frame|].
    apply (keeps_bind _); [apply line_output_grows|].
    intros ?. apply fs_const_grows; auto with frame.
  - intros [sl'|sl']; [|apply fs_const_grows; auto with frame].
    destruct (sl_keystroke _ _); apply fs_const_grows; auto with frame.
Qed.

Lemma iteration_grows cfg inp st :
  keeps (λ w w', appended_to (in_file cfg) (w_fs w) (w_fs w'))
        (iteration cfg inp st).
Proof.
  unfold iteration.
  apply (keeps_bind _); [apply fs_const_grows; auto with frame|]. intros _.
  apply (keeps_bind _); [apply handle_keyboard_grows|].
  intros [sl|sl]; apply fs_const_grows.
  - destruct (flag_set _ _); repeat frame_step.
  - repeat frame_step.
Qed.

(** X9. Whatever the wakeups bring and however the loop ends, the outbound
    file is the only file it changes, by bytes appended at its end with the
    permissions kept; no other file is created, changed or removed. *)
Theorem main_loop_only_appends_to_in_file cfg ins st w w' r :
  main_loop cfg ins st w = (w', r) →
  appended_to (in_file cfg) (w_fs w) (w_fs w').
Proof.
  revert st w. induction ins as [|inp ins IH]; intros st w; simpl.
  - intros [= <- _]. apply appended_to_refl.
  - unfold mbind, io_bind.
    destruct (iteration cfg inp st w) as [w1 [[[] st1]|s|]] eqn:Hit;
      intros H.
    + eapply appended_to_trans; [by eapply iteration_grows|by eapply IH].
    + injection H as <- _. by eapply iteration_grows.
    + injection H as <- _. by eapply iteration_grows.
    + injection H as <- _. by eapply iteration_grows.
Qed.

(** Descriptors and children when a computation returns. *)
Lemma same_handles_pure {A} (m : io A) :
  (∀ w w' a, m w = (w', Ret a) →
             w_fds w' = w_fds w ∧ w_procs w' = w_procs w) →
  keeps_ret same_handles m.
Proof. intros H w w' a E. by apply (H w w' a). Qed.

Lemma same_handles_put bs : keeps_ret same_handles (put bs).
Proof. by intros w w' a [= <- _]. Qed.

Lemma same_handles_ret {A} (a : A) : keeps_ret same_handles (mret a).
Proof. by intros w w' b [= <- _]. Qed.

Lemma same_handles_exit {A} s : keeps_ret same_handles (exit (A := A) s).
Proof. by intros w w' b [=]. Qed.

Lemma same_handles_must {A} (o : option A) : keeps_ret same_handles (must o).
Proof. intros w w' b. unfold must. by destruct o; intros [= <- _]. Qed.

Lemma same_handles_sys_write_tty data :
  keeps_ret same_handles (sys_write 1 data).
Proof. by intros w w' a [= <- _]. Qed.

Lemma same_handles_line_output sl file :
  keeps_ret same_handles (line_output sl file).
Proof.
  intros w w' sl'.
  pose proof (fresh_key_ge (w_fds w)) as Hge.
  pose proof (fresh_key_unused (w_fds w)) as Hnew.
  unfold line_output, mbind, io_bind, sys_open_append.
  destruct (w_fs w !! file) as [f|] eqn:Hf;
    [destruct (f_writable f)|]; simpl; try done.
  destruct (Z.eqb_spec (fresh_key (w_fds w)) (-1)) as [|_]; [lia|].
  unfold must.
  destruct (store _ _ _) as [b|]; simpl; [|done].
  destruct (load _ _) as [data|]; simpl; [|done].
  unfold sys_write. simpl.
  destruct (Z.eqb_spec (fresh_key (w_fds w)) 1) as [|_]; [lia|].
  rewrite lookup_insert_eq, Hf.
  destruct (Z.eqb_spec (Z.of_nat (length data)) (-1)) as [|_]; [lia|].
  unfold sys_close. simpl. rewrite lookup_insert_eq. simpl.
  intros [= <- _]. split; simpl; [|done].
  by rewrite delete_insert_id.
Qed.

Lemma same_handles_bell_match str file :
  keeps_ret same_handles (bell_match str file).
Proof.
  intros w w' m.
  destruct (w_fs w !! file) as [f|] eqn:Hf.
  - destruct (f_readable f) eqn:Hr.
    + destruct (cstr str) as [t|] eqn:Ht.
      * rewrite (bell_match_run str t file f w Hf Hr Ht). by intros [= <- _].
      * unfold bell_match, mbind, io_bind, sys_access, must.
        rewrite Hf, Hr, Ht. simpl. done.
    + rewrite (bell_match_unreadable str file f w Hf Hr). by intros [= <- _].
  - rewrite (bell_match_no_file str file w Hf). by intros [= <- _].
Qed.

#[local] Hint Resolve same_handles_put same_handles_ret same_handles_exit
  same_handles_must same_handles_sys_write_tty same_handles_line_output
  same_handles_bell_match : frame.

Ltac handles_step :=
  match goal with
  | |- keeps_ret same_handles (_ ≫= _) =>
      apply (keeps_ret_bind _); [|intros ?]
  | |- keeps_ret same_handles (if ?b then _ else _) => destruct b
  | |- keeps_ret same_handles (match ?x with _ => _ end) => destruct x
  | |- keeps_ret same_handles _ => solve [auto with frame]
  end.

Lemma same_handles_iteration cfg inp st :
  keeps_ret same_handles (iteration cfg inp st).
Proof.
  unfold iteration, loop_preamble, handle_keyboard, handle_feed, alert,
    redraw.
  repeat handles_step.
Qed.

(** X10. The loop leaks neither descriptors nor children: whenever it is
    back in poll, or has ended through the hangup of the feed, the open
    files and the children are those of its start.  The outbound file is
    closed after every line and every grep is waited for. *)
Theorem main_loop_leaks_no_handle cfg ins st w w' r :
  main_loop cfg ins st w = (w', r) →
  (∃ st', r = Ret st') ∨ r = Exit EXIT_SUCCESS →
  w_fds w' = w_fds w ∧ w_procs w' = w_procs w.
Proof.
  revert st w. induction ins as [|inp ins IH]; intros st w; simpl.
  - by intros [= <- _] _.
  - unfold mbind, io_bind.
    destruct (iteration cfg inp st w) as [w1 [[[] st1]|s|]] eqn:Hit;
      intros H Hr.
    + apply same_handles_iteration in Hit as [Hf Hp].
      destruct (IH _ _ H Hr) as [Hf' Hp']. split; congruence.
    + injection H as <- _. by apply same_handles_iteration in Hit.
    + injection H as _ <-. apply only_fails_iteration in Hit.
      destruct Hr as [[? ?]|?]; congruence.
    + injection H as _ <-. destruct Hr as [[? ?]|?]; congruence.
Qed.

(** X11. [bell_match] changes no file and sends nothing to the terminal,
    whatever its outcome.  When it returns, the pipe to grep is closed and
    grep waited for, so that no stream and no child is left, and it has run
    no command or one, whose status decides the answer. *)
Theorem bell_match_leaves_world str file w w' r :
  bell_match str file w = (w', r) →
  w_fs w' = w_fs w ∧ w_tty w' = w_tty w ∧
  ∀ m, r = Ret m →
       w_procs w' = w_procs w ∧
       (w_trace w' = w_trace w ∧ m = true ∨
        ∃ cmd sent status,
          w_trace w' = w_trace w ++ [EvRun cmd sent status] ∧
          m = (status =? 0)).
Proof.
  intros H.
  destruct (w_fs w !! file) as [f|] eqn:Hf.
  - destruct (f_readable f) eqn:Hr.
    + destruct (cstr str) as [t|] eqn:Ht.
      * rewrite (bell_match_run str t file f w Hf Hr Ht) in H.
        injection H as <- <-. simpl.
        split; [done|]. split; [done|].
        intros m [= <-]. split; [done|]. right. eauto.
      * unfold bell_match, mbind, io_bind, sys_access, must in H.
        rewrite Hf, Hr, Ht in H. simpl in H. injection H as <- <-.
        simpl. by repeat split.
    + rewrite (bell_match_unreadable str file f w Hf Hr) in H.
      injection H as <- <-.
      split; [done|]. split; [done|].
      intros m [= <-]. auto.
  - rewrite (bell_match_no_file str file w Hf) in H.
    injection H as <- <-.
    split; [done|]. split; [done|].
    intros m [= <-]. auto.
Qed.

(** * Further properties of the start of [main] *)

(** ** The terminal set up for the line editor *)

Lemma land_mask_out x m f :
  Z.land m f = f → Z.land (Z.land x (Z.lnot m)) f = 0.
Proof.
  intros H. apply Z.bits_inj'. intros n Hn.
  apply (f_equal (λ z, Z.testbit z n)) in H.
  rewrite Z.land_spec in H.
  rewrite !Z.land_spec, Z.lnot_spec, Z.bits_0 by done.
  destruct (Z.testbit x n), (Z.testbit m n), (Z.testbit f n);
    simpl in *; congruence.
Qed.

Lemma land_mask_keep x m f :
  Z.land m f = 0 → Z.land (Z.land x (Z.lnot m)) f = Z.land x f.
Proof.
  intros H. apply Z.bits_inj'. intros n Hn.
  apply (f_equal (λ z, Z.testbit z n)) in H.
  rewrite Z.land_spec, Z.bits_0 in H.
  rewrite !Z.land_spec, Z.lnot_spec by done.
  destruct (Z.testbit x n), (Z.testbit m n), (Z.testbit f n);
    simpl in *; congruence.
Qed.

(** X12. The attributes [main] sets switch off the echo, the line
    discipline and the translation of the return key into a newline (the
    key arrives as the byte 13 the loop tests for) and make characters of 8
    bits, read one at a time.  The signal keys and all of the output
    processing stay as they were. *)
Theorem raw_mode_flags t :
  (VMIN < length (c_cc t))%nat →
  let r := raw_mode t in
  Z.land (c_lflag r) ECHO = 0 ∧
  Z.land (c_lflag r) ICANON = 0 ∧
  Z.land (c_iflag r) ICRNL = 0 ∧
  Z.land (c_iflag r) IXON = 0 ∧
  Z.land (c_cflag r) CSIZE = CS8 ∧
  Z.land (c_cflag r) PARENB = 0 ∧
  Z.land (c_lflag r) ISIG = Z.land (c_lflag t) ISIG ∧
  c_oflag r = c_oflag t ∧
  c_cc r !! VMIN = Some 1 ∧ c_cc r !! VTIME = Some 0.
Proof.
  intros Hcc. simpl. repeat split; try (by apply land_mask_out);
    try (by apply land_mask_keep).
  - rewrite Z.land_lor_distr_l, land_mask_out by done. done.
  - rewrite Z.land_lor_distr_l, land_mask_out by done. done.
  - rewrite list_lookup_insert_ne by done.
    by rewrite list_lookup_insert_eq.
  - rewrite list_lookup_insert_eq; [done|].
    rewrite length_insert. unfold VMIN, VTIME in *. lia.
Qed.

(** X13. Setting the terminal up a second time changes nothing: an lchat
    started on a terminal that another lchat has set up finds and leaves
    the same attributes. *)
Theorem raw_mode_idempotent t : raw_mode (raw_mode t) = raw_mode t.
Proof.
  unfold raw_mode. simpl. f_equal.
  - by rewrite <- Z.land_assoc, Z.land_diag.
  - generalize (Z.lnot (Z.lor CSIZE PARENB)) as m, CS8 as c, (c_cflag t) as x.
    intros. apply Z.bits_inj'. intros n Hn.
    rewrite !Z.lor_spec, !Z.land_spec, !Z.lor_spec, !Z.land_spec.
    destruct (Z.testbit x n), (Z.testbit m n), (Z.testbit c n); done.
  - by rewrite <- Z.land_assoc, Z.land_diag.
  - rewrite (list_insert_insert_ne _ VMIN VTIME) by done.
    by rewrite !list_insert_insert_eq.
Qed.

(** ** The steps of the process *)

Lemma lift_inv {A} (m : io A) s s' r :
  lift m s = (s', r) →
  ∃ w', m (m_world s) = (w', r) ∧ s' = set_world s w'.
Proof.
  unfold lift. destruct (m (m_world s)) as [w' r'].
  intros [= <- <-]. eauto.
Qed.

Lemma lift_run {A} (m : io A) s w' r :
  m (m_world s) = (w', r) → lift m s = (set_world s w', r).
Proof. unfold lift. by intros ->. Qed.

#[local] Instance quiet_trans : Transitive quiet.
Proof.
  intros w1 w2 w3 (? & ? & ?) (? & ? & ?). repeat split; congruence.
Qed.

Lemma quiet_refl w : quiet w w.
Proof. done. Qed.

(** ** The configuration files, the options and the operands *)

Lemma read_file_line_quiet file : keeps quiet (read_file_line file).
Proof.
  unfold read_file_line.
  apply (keeps_bind _); [by intros w w' r [= <- _]|intros a].
  destruct (a =? -1); [by intros w w' r [= <- _]|].
  apply (keeps_bind _).
  { intros w w' r. unfold sys_fopen.
    repeat case_match; by intros [= <- _]. }
  intros [fh|]; [|by intros w w' r [= <- _]].
  apply (keeps_bind _).
  { intros w w' r. unfold sys_fgets.
    repeat case_match; by intros [= <- _]. }
  intros [b|]; [|by intros w w' r [= <- _]].
  apply (keeps_bind _).
  { intros w w' r. unfold sys_fclose, sys_close.
    repeat case_match; by intros [= <- _]. }
  intros c. destruct (c =? -1); [by intros w w' r [= <- _]|].
  apply (keeps_bind _).
  { intros w w' r. unfold must. case_match; by intros [= <- _]. }
  intros line. destruct (alloc_ok _); by intros w w' r [= <- _].
Qed.

(** [read_file_line] returns or fails; it has no undefined behaviour. *)
Lemma read_file_line_outcome file w w' r :
  read_file_line file w = (w', r) →
  quiet w w' ∧ (r = Exit EXIT_FAILURE ∨ ∃ o, r = Ret o).
Proof.
  intros H. split; [by eapply read_file_line_quiet|].
  destruct (w_fs w !! file) as [f|] eqn:Hf.
  - destruct (f_readable f) eqn:Hr.
    + destruct (f_data f) as [|b d] eqn:Hd.
      * pose proof (read_file_line_empty_file file f w Hf Hr Hd) as He.
        rewrite H in He. by left.
      * assert (f_data f ≠ []) as Hne by by rewrite Hd.
        rewrite (read_file_line_run file f w Hf Hr Hne) in H.
        destruct (alloc_ok _); simplify_eq; eauto.
    + rewrite read_file_line_unreadable in H
        by (unfold unreadable; by rewrite Hf).
      simplify_eq; eauto.
  - rewrite read_file_line_unreadable in H
      by (unfold unreadable; by rewrite Hf).
    simplify_eq; eauto.
Qed.

Lemma main_locals_outcome w w' r :
  main_locals w = (w', r) →
  quiet w w' ∧ (r = Exit EXIT_FAILURE ∨ ∃ l, r = Ret l).
Proof.
  unfold main_locals, mbind, io_bind.
  destruct (read_file_line ".prompt" w) as [w1 r1] eqn:H1.
  apply read_file_line_outcome in H1 as [Hq1 [->|[p ->]]].
  { intros [= <- <-]. eauto. }
  destruct (read_file_line ".title" w1) as [w2 r2] eqn:H2.
  apply read_file_line_outcome in H2 as [Hq2 [->|[t ->]]].
  - intros [= <- <-]. split; [by etrans|eauto].
  - intros [= <- <-]. split; [by etrans|eauto].
Qed.

Lemma strdup_outcome str w w' r :
  strdup str w = (w', r) →
  w' = w ∧ (r = Exit EXIT_FAILURE ∨ r = Ret str).
Proof. unfold strdup. destruct (alloc_ok _); intros [= <- <-]; eauto. Qed.

(** One option: the world stays, and the option is known when the switch
    returns. *)
Lemma main_option_outcome l ch optarg w w' r :
  main_option l ch optarg w = (w', r) →
  w' = w ∧ (r = Exit EXIT_FAILURE ∨
            known_option ch = true ∧ ∃ l', r = Ret l').
Proof.
  unfold main_option, known_option.
  repeat (
    match goal with
    | |- context [ch =? ?k] => destruct (Z.eqb_spec ch k) as [->|?]
    end;
    [simpl; try destruct (strtoull optarg) as [v []];
     unfold mbind, io_bind;
     try (destruct (strdup optarg w) as [w1 r1] eqn:Hs;
          apply strdup_outcome in Hs as [-> [-> | ->]]);
     intros [= <- <-]; (split; [done|]);
     solve [by left|right; split; [done|eauto]]|]).
  intros [= <- <-]. eauto.
Qed.

Lemma main_getopt_outcome opts : ∀ l w w' r,
  main_getopt opts l w = (w', r) →
  w' = w ∧ (r = Exit EXIT_FAILURE ∨
            Forall (λ o, known_option o.1 = true) opts ∧ ∃ l', r = Ret l').
Proof.
  induction opts as [|[ch optarg] opts IH]; intros l w w' r; simpl.
  - intros [= <- <-]. eauto.
  - unfold mbind, io_bind.
    destruct (main_option l ch optarg w) as [w1 r1] eqn:H1.
    apply main_option_outcome in H1 as [-> [->|[Hk [l1 ->]]]].
    { intros [= <- <-]. eauto. }
    intros H. apply IH in H as [-> [->|[Hf [l' ->]]]]; [eauto|].
    split; [done|]. right. split; [|eauto]. by constructor.
Qed.

Lemma main_paths_outcome operands l w w' r :
  main_paths operands l w = (w', r) →
  w' = w ∧ (r = Exit EXIT_FAILURE ∨
            (length operands ≤ 1)%nat ∧ ∃ x, r = Ret x).
Proof.
  unfold main_paths.
  destruct (Nat.ltb_spec 1 (length operands)) as [?|Hn].
  { intros [= <- <-]. eauto. }
  unfold mbind, io_bind.
  destruct (match operands with
            | [] => mret (l_dir l)
            | d :: _ => strdup d
            end w) as [w1 r1] eqn:H1.
  assert (w1 = w ∧ (r1 = Exit EXIT_FAILURE ∨ ∃ d, r1 = Ret d))
    as [-> [->|[d ->]]].
  { destruct operands as [|d ?].
    - injection H1 as <- <-. eauto.
    - apply strdup_outcome in H1 as [-> [-> | ->]]; eauto. }
  { intros [= <- <-]. eauto. }
  destruct (match l_in_file l with
            | Some f => mret f
            | None => strdup (d +:+ "/in")
            end w) as [w2 r2] eqn:H2.
  assert (w2 = w ∧ (r2 = Exit EXIT_FAILURE ∨ ∃ d, r2 = Ret d))
    as [-> [->|[i ->]]].
  { destruct (l_in_file l).
    - injection H2 as <- <-. eauto.
    - apply strdup_outcome in H2 as [-> [-> | ->]]; eauto. }
  { intros [= <- <-]. eauto. }
  destruct (match l_out_file l with
            | Some f => mret f
            | None => strdup (d +:+ "/out")
            end w) as [w3 r3] eqn:H3.
  assert (w3 = w ∧ (r3 = Exit EXIT_FAILURE ∨ ∃ d, r3 = Ret d))
    as [-> [->|[o ->]]].
  { destruct (l_out_file l).
    - injection H3 as <- <-. eauto.
    - apply strdup_outcome in H3 as [-> [-> | ->]]; eauto. }
  { intros [= <- <-]. eauto. }
  intros [= <- <-]. eauto.
Qed.

(** Lines 138 to 212 return or fail, and send nothing to the terminal,
    start no child and change no file.  When they return, every option was
    a known one and at most one operand was left. *)
Lemma main_args_outcome opts operands w w' r :
  main_args opts operands w = (w', r) →
  quiet w w' ∧
  (r = Exit EXIT_FAILURE ∨
   Forall (λ o, known_option o.1 = true) opts ∧
   (length operands ≤ 1)%nat ∧ ∃ x, r = Ret x).
Proof.
  unfold main_args, mbind, io_bind.
  destruct (main_locals w) as [w1 r1] eqn:H1.
  apply main_locals_outcome in H1 as [Hq [->|[l0 ->]]].
  { intros [= <- <-]. eauto. }
  destruct (main_getopt opts l0 w1) as [w2 r2] eqn:H2.
  apply main_getopt_outcome in H2 as [-> [->|[Hk [l1 ->]]]].
  { intros [= <- <-]. eauto. }
  intros H. apply main_paths_outcome in H as [-> [->|[Hn [x ->]]]]; eauto 6.
Qed.

Lemma main_option_fields l ch optarg w w' l' :
  main_option l ch optarg w = (w', Ret l') →
  l_in_file l' = (if ch =? 105 then Some optarg else l_in_file l) ∧
  l_out_file l' = (if ch =? 111 then Some optarg else l_out_file l) ∧
  l_history_len l' =
    (if ch =? 110 then (strtoull optarg).1 else l_history_len l) ∧
  l_prompt l' =
    (if ch =? 112 then bytes_of_string optarg else l_prompt l) ∧
  l_prompt_len l' =
    (if ch =? 112 then Z.of_nat (length (bytes_of_string optarg))
     else l_prompt_len l) ∧
  l_title l' =
    (if ch =? 116 then Some (bytes_of_string optarg) else l_title l) ∧
  l_bell_flag l' = (if ch =? 97 then false else l_bell_flag l) ∧
  l_empty_line l' = (if ch =? 101 then true else l_empty_line l) ∧
  l_bell_file l' = l_bell_file l ∧ l_dir l' = l_dir l.
Proof.
  unfold main_option.
  repeat (
    match goal with
    | |- context [ch =? ?k] => destruct (Z.eqb_spec ch k) as [->|?]
    end;
    [simpl; try destruct (strtoull optarg) as [v []];
     unfold mbind, io_bind;
     try (destruct (strdup optarg w) as [w1 r1] eqn:Hs;
          apply strdup_outcome in Hs as [-> [-> | ->]]);
     intros [= <- <-]; done|]).
  by intros [= <- <-].
Qed.

Lemma last_arg_cons {A} ch c a opts (f : string → A) (d : A) :
  from_option f d (last_arg ch ((c, a) :: opts)) =
  from_option f (if c =? ch then f a else d) (last_arg ch opts).
Proof. simpl. destruct (last_arg ch opts); [done|]. by destruct (c =? ch). Qed.

(** The loop over the options: for every local the last option that sets
    it wins. *)
Lemma main_getopt_fields opts : ∀ l w w' l',
  main_getopt opts l w = (w', Ret l') →
  l_in_file l' = from_option Some (l_in_file l) (last_arg 105 opts) ∧
  l_out_file l' = from_option Some (l_out_file l) (last_arg 111 opts) ∧
  l_history_len l' =
    from_option (λ a, (strtoull a).1) (l_history_len l) (last_arg 110 opts) ∧
  l_prompt l' = from_option bytes_of_string (l_prompt l) (last_arg 112 opts) ∧
  l_prompt_len l' =
    from_option (λ a, Z.of_nat (length (bytes_of_string a))) (l_prompt_len l)
                (last_arg 112 opts) ∧
  l_title l' =
    from_option (λ a, Some (bytes_of_string a)) (l_title l)
                (last_arg 116 opts) ∧
  l_bell_flag l' = from_option (λ _, false) (l_bell_flag l) (last_arg 97 opts) ∧
  l_empty_line l' =
    from_option (λ _, true) (l_empty_line l) (last_arg 101 opts) ∧
  l_bell_file l' = l_bell_file l ∧ l_dir l' = l_dir l.
Proof.
  induction opts as [|[ch optarg] opts IH]; intros l w w' l'.
  - by intros [= <- <-].
  - cbn [main_getopt]. unfold mbind, io_bind.
    destruct (main_option l ch optarg w) as [w1 [l1| |]] eqn:H1; [|done..].
    apply main_option_fields in H1
      as (E1 & E2 & E3 & E4 & E5 & E6 & E7 & E8 & E9 & E10).
    intros H. apply IH in H.
    rewrite !last_arg_cons.
    by rewrite E1, E2, E3, E4, E5, E6, E7, E8, E9, E10 in H.
Qed.

(** Lines 138 to 212 when they return: what the configuration files, the
    options and the operand make of the locals. *)
Lemma main_args_ret opts operands w w' l i o :
  main_args opts operands w = (w', Ret (l, i, o)) →
  ∃ p t w1,
    read_file_line ".prompt" w = (w1, Ret p) ∧
    read_file_line ".title" w1 = (w', Ret t) ∧
    i = from_option id (hd "." operands +:+ "/in") (last_arg 105 opts) ∧
    o = from_option id (hd "." operands +:+ "/out") (last_arg 111 opts) ∧
    l_history_len l =
      from_option (λ a, (strtoull a).1) 5 (last_arg 110 opts) ∧
    l_prompt l =
      from_option bytes_of_string (default (bytes_of_string ">") p)
                  (last_arg 112 opts) ∧
    l_prompt_len l = Z.of_nat (length (l_prompt l)) ∧
    l_title l =
      from_option (λ a, Some (bytes_of_string a)) t (last_arg 116 opts) ∧
    l_bell_flag l = from_option (λ _, false) true (last_arg 97 opts) ∧
    l_empty_line l = from_option (λ _, true) false (last_arg 101 opts) ∧
    l_bell_file l = ".bellmatch".
Proof.
  unfold main_args, mbind, io_bind.
  destruct (main_locals w) as [w1 [l0| |]] eqn:H0; [|done..].
  destruct (main_getopt opts l0 w1) as [w2 [l1| |]] eqn:H1; [|done..].
  pose proof (main_getopt_outcome _ _ _ _ _ H1) as [-> _].
  apply main_getopt_fields in H1
    as (E1 & E2 & E3 & E4 & E5 & E6 & E7 & E8 & E9 & E10).
  unfold main_locals, mbind, io_bind in H0.
  destruct (read_file_line ".prompt" w) as [wp [p| |]] eqn:Hp; [|done..].
  destruct (read_file_line ".title" wp) as [wt [t| |]] eqn:Ht; [|done..].
  injection H0 as <- <-. simpl in *.
  intros H. exists p, t, wp. split; [done|].
  pose proof (main_paths_outcome _ _ _ _ _ H) as [-> _].
  split; [done|].
  unfold main_paths, mbind, io_bind in H.
  destruct (1 <? length operands)%nat; [done|].
  destruct (match operands with
            | [] => mret (l_dir l1)
            | d :: _ => strdup d
            end wt) as [wa ra] eqn:Ha.
  assert (wa = wt ∧ (ra = Exit EXIT_FAILURE ∨ ra = Ret (hd "." operands)))
    as [-> [-> | ->]]; [|done|].
  { destruct operands as [|d ?].
    - injection Ha as <- <-. rewrite E10. eauto.
    - apply strdup_outcome in Ha as [-> [-> | ->]]; eauto. }
  rewrite E1, E2 in H.
  destruct (last_arg 105 opts) as [ai|]; simpl in H;
    [|destruct (strdup (hd "." operands +:+ "/in") wt) as [wb rb] eqn:Hb;
      apply strdup_outcome in Hb as [-> [-> | ->]]; [done|]];
    (destruct (last_arg 111 opts) as [ao|]; simpl in H;
     [|destruct (strdup (hd "." operands +:+ "/out") wt) as [wc rc] eqn:Hc;
       apply strdup_outcome in Hc as [-> [-> | ->]]; [done|]]);
    injection H as <- <- <-; simpl;
    rewrite ?E3, ?E4, ?E5, ?E6, ?E7, ?E8, ?E9;
    (repeat split; try done);
    by destruct (last_arg 112 opts).
Qed.

(** ** The set-up of the terminal *)

(** Lines 214 to 272 when they return. *)
Lemma main_setup_ret l i o s s' cfg :
  main_setup l i o s = (s', Ret cfg) →
  let w := m_world s in
  let w' := m_world s' in
  ∃ t, m_stdin s = Some t ∧
       m_stdin s' = Some (raw_mode t) ∧
       origin_term s' = t ∧
       m_atexit s' = true ∧
       winsize s' = from_option id (winsize s) (m_stdout s) ∧
       cfg = Config (l_empty_line l) (l_bell_flag l) (l_bell_file l)
                    (l_prompt l) (l_prompt_len l) i ∧
       w_tty w' = w_tty w ++ title_seq (l_title l) (m_TERM s) ++ l_prompt l ∧
       w_procs w' =
         <[fresh_key (w_procs w) :=
             (tail_command (l_history_len l) o (m_filter s), [])]>
           (w_procs w) ∧
       w_fs w' = w_fs w ∧ w_fds w' = w_fds w ∧ w_trace w' = w_trace w.
Proof.
  unfold main_setup, main_title, main_terminal, sigwinch, mbind, proc_bind,
    sys_isatty, sys_tcgetattr, sys_tcsetattr, sys_atexit, sys_getenv_TERM,
    sys_access_filter, lift, sys_popen, put, proc_exit, proc_undef, mret,
    proc_ret, title_seq.
  destruct (m_stdin s) as [t|] eqn:Hin; simpl; [|done].
  destruct (l_title l) as [ti|], (m_TERM s) as [v|] eqn:Hv; simpl;
    try done; try destruct (String.eqb v "screen"); simpl;
    repeat (rewrite Hin; simpl);
    destruct (m_stdout s) eqn:Hout, (m_filter s) eqn:Hfi; simpl;
    intros [= <- <-]; exists t; simpl;
    rewrite ?Hout, ?Hfi, ?(right_id_L [] (++)); simpl;
    repeat split; try done;
    by repeat (rewrite <- (assoc_L (++)); simpl).
Qed.

(** Lines 214 to 272 with every outcome: either the terminal has not been
    touched and no handler is registered, or the set-up is complete. *)
Lemma main_setup_cases l i o s s' r :
  main_setup l i o s = (s', r) → m_atexit s = false →
  (m_atexit s' = false ∧ m_stdin s' = m_stdin s ∧ ∀ c, r ≠ Ret c) ∨
  (∃ c, r = Ret c).
Proof.
  unfold main_setup, main_title, main_terminal, sigwinch, mbind, proc_bind,
    sys_isatty, sys_tcgetattr, sys_tcsetattr, sys_atexit, sys_getenv_TERM,
    sys_access_filter, lift, sys_popen, put, proc_exit, proc_undef, mret,
    proc_ret.
  intros H Hat. revert H.
  destruct (m_stdin s) as [t|] eqn:Hin; simpl;
    [|intros [= <- <-]; by left].
  destruct (l_title l) as [ti|], (m_TERM s) as [v|] eqn:Hv; simpl;
    try (intros [= <- <-]; by left);
    try destruct (String.eqb v "screen"); simpl;
    repeat (rewrite Hin; simpl);
    destruct (m_stdout s), (m_filter s); simpl;
    intros [= <- <-]; right; eauto.
Qed.

Lemma main_start_cases opts operands s s' r :
  main_start opts operands s = (s', r) → m_atexit s = false →
  (m_atexit s' = false ∧ m_stdin s' = m_stdin s ∧ ∀ c, r ≠ Ret c) ∨
  (∃ c t, r = Ret c ∧ m_stdin s = Some t ∧ m_stdin s' = Some (raw_mode t) ∧
          origin_term s' = t ∧ m_atexit s' = true).
Proof.
  unfold main_start, mbind, proc_bind. intros H Hat.
  destruct (lift (main_args opts operands) s) as [s1 r1] eqn:H1.
  apply lift_inv in H1 as (w1 & H1 & ->).
  destruct r1 as [[[l i] o]| |].
  - pose proof (main_setup_cases _ _ _ _ _ _ H Hat) as [?|[c ->]];
      [by left|].
    apply main_setup_ret in H as (t & ? & ? & ? & ? & _). right. eauto 8.
  - injection H as <- <-. by left.
  - injection H as <- <-. by left.
Qed.

(** X14. Every exit of [main], from a usage error before the terminal is
    touched to a fault or the hangup of the feed in the loop, leaves the
    terminal on stdin with the attributes it had at the start. *)
Theorem main_exit_restores_terminal opts operands ins s s' st :
  m_atexit s = false →
  main opts operands ins s = (s', Exit st) →
  m_stdin s' = m_stdin s.
Proof.
  intros Hat. unfold main, at_exit, mbind, proc_bind.
  destruct (main_start opts operands s) as [s1 r1] eqn:H1.
  destruct (main_start_cases _ _ _ _ _ H1 Hat)
    as [(Hat1 & Hin1 & Hr)|(c & t & -> & Hin & Hin1 & Ho & Hat1)].
  - destruct r1 as [c| |]; [by destruct (Hr c)| |done].
    rewrite Hat1. by intros [= <- _].
  - destruct (lift (main_loop c ins (LoopState sl_init 0)) s1)
      as [s2 r2] eqn:H2.
    apply lift_inv in H2 as (w2 & _ & ->).
    destruct r2 as [?|st2|]; [done| |done]. simpl. rewrite Hat1.
    unfold exit_handler, mbind, proc_bind, sys_tcsetattr. simpl.
    rewrite Hin1. simpl. intros [= <- _]. simpl. by rewrite Ho, Hin.
Qed.

(** X15. While [main] is in its loop, the terminal on stdin has the
    attributes of the start changed as the set-up changes them, and
    [origin_term] holds those of the start for the exit. *)
Theorem main_loop_runs_in_raw_mode opts operands ins s s' st :
  m_atexit s = false →
  main opts operands ins s = (s', Ret st) →
  ∃ t, m_stdin s = Some t ∧ m_stdin s' = Some (raw_mode t) ∧
       origin_term s' = t ∧ m_atexit s' = true.
Proof.
  intros Hat. unfold main, at_exit, mbind, proc_bind.
  destruct (main_start opts operands s) as [s1 r1] eqn:H1.
  destruct (main_start_cases _ _ _ _ _ H1 Hat)
    as [(Hat1 & Hin1 & Hr)|(c & t & -> & Hin & Hin1 & Ho & Hat1)].
  - destruct r1 as [c| |]; [by destruct (Hr c)| |done].
    by destruct (m_atexit s1).
  - destruct (lift (main_loop c ins (LoopState sl_init 0)) s1)
      as [s2 r2] eqn:H2.
    apply lift_inv in H2 as (w2 & _ & ->).
    destruct r2 as [st2|st2|]; [| |done].
    + intros [= <- _]. exists t. by simpl.
    + simpl. rewrite Hat1.
      by destruct (exit_handler _) as [? [| |]].
Qed.

(** ** What the start of [main] refuses *)

(** X16. Without a terminal on stdin [main] always ends with failure,
    whatever the options, operands and files: it has sent nothing to the
    terminal, started no child, changed no file, and left [winsize],
    [origin_term] and the handlers as they were. *)
Theorem main_without_terminal_fails opts operands ins s s' r :
  m_stdin s = None →
  m_atexit s = false →
  main opts operands ins s = (s', r) →
  r = Exit EXIT_FAILURE ∧ same_machine s s' ∧
  quiet (m_world s) (m_world s').
Proof.
  intros Hin Hat. unfold main, at_exit, main_start, mbind, proc_bind.
  destruct (lift (main_args opts operands) s) as [s1 r1] eqn:H1.
  apply lift_inv in H1 as (w1 & H1 & ->).
  apply main_args_outcome in H1 as [Hq [->|(_ & _ & [[l i] o] & ->)]].
  - simpl. rewrite Hat. by intros [= <- <-].
  - unfold main_setup, mbind, proc_bind, sys_isatty. simpl. rewrite Hin.
    simpl. rewrite Hat. by intros [= <- <-].
Qed.

(** X17. An option outside of the option string, -h among them, or more
    than one operand ends [main] with failure before the terminal is
    touched: nothing is sent to it, its attributes stay, and no child is
    started. *)
Theorem usage_error_exits_before_terminal opts operands ins s s' r :
  Exists (λ o, known_option o.1 = false) opts ∨
    (1 < length operands)%nat →
  m_atexit s = false →
  main opts operands ins s = (s', r) →
  r = Exit EXIT_FAILURE ∧ same_machine s s' ∧
  quiet (m_world s) (m_world s').
Proof.
  intros Hbad Hat. unfold main, at_exit, main_start, mbind, proc_bind.
  destruct (lift (main_args opts operands) s) as [s1 r1] eqn:H1.
  apply lift_inv in H1 as (w1 & H1 & ->).
  apply main_args_outcome in H1 as [Hq [->|(Hk & Hn & _)]].
  - simpl. rewrite Hat. by intros [= <- <-].
  - destruct Hbad as [Hbad|Hbad]; [|lia].
    apply Exists_exists in Hbad as (o & Ho & Hbad).
    rewrite Forall_forall in Hk. specialize (Hk o Ho). congruence.
Qed.

(** X18. The prompt file is read before the options are looked at: a
    prompt file that may be read but is empty ends [main] with failure even
    when the option -p gives a prompt. *)
Theorem empty_prompt_file_beats_option opts operands ins s f :
  w_fs (m_world s) !! ".prompt" = Some f →
  f_readable f = true →
  f_data f = [] →
  m_atexit s = false →
  (main opts operands ins s).2 = Exit EXIT_FAILURE.
Proof.
  intros Hf Hr Hd Hat.
  pose proof (read_file_line_empty_file ".prompt" f _ Hf Hr Hd) as He.
  unfold main, at_exit, main_start, lift, main_args, main_locals, mbind,
    proc_bind, io_bind.
  destruct (read_file_line ".prompt" (m_world s)) as [w1 r1].
  simpl in He. subst r1. simpl. by rewrite Hat.
Qed.

(** X19. With a -t option among accepted options and operands, stdin on a
    terminal and TERM not in the environment, [main] runs into undefined
    behaviour (strcmp on the NULL of getenv) before it has touched the
    terminal: the machine is that of the start but for the files read. *)
Theorem title_without_TERM_is_undefined opts operands ins s w1 x :
  main_args opts operands (m_world s) = (w1, Ret x) →
  is_Some (last_arg 116 opts) →
  is_Some (m_stdin s) →
  m_TERM s = None →
  main opts operands ins s = (set_world s w1, Undef).
Proof.
  destruct x as [[l i] o]. intros Ha [a Ht] [t Hin] Hterm.
  unfold main, at_exit, main_start, mbind, proc_bind.
  rewrite (lift_run _ _ _ _ Ha).
  apply main_args_ret in Ha
    as (p & ti & w0 & _ & _ & _ & _ & _ & _ & _ & Hti & _).
  rewrite Ht in Hti. simpl in Hti.
  unfold main_setup, main_title, mbind, proc_bind, sys_isatty,
    sys_getenv_TERM, proc_undef.
  simpl. rewrite Hin, Hti. simpl. by rewrite Hterm.
Qed.

(** ** What the start of [main] sets up *)

(** X20. The start of [main] sends the title sequence, if there is a
    title, and then the prompt to the terminal.  The prompt is that of the
    last -p option, else the line of the prompt file, else ">"; the title is
    that of the last -t option, else the line of the title file.  The prompt
    length of the loop is the length of that prompt. *)
Theorem main_start_prompt opts operands s s' cfg :
  main_start opts operands s = (s', Ret cfg) →
  ∃ p t w1 w2,
    read_file_line ".prompt" (m_world s) = (w1, Ret p) ∧
    read_file_line ".title" w1 = (w2, Ret t) ∧
    prompt cfg =
      from_option bytes_of_string (default (bytes_of_string ">") p)
                  (last_arg 112 opts) ∧
    prompt_len cfg = Z.of_nat (length (prompt cfg)) ∧
    w_tty (m_world s') =
      w_tty (m_world s) ++
      title_seq (from_option (λ a, Some (bytes_of_string a)) t
                             (last_arg 116 opts)) (m_TERM s) ++
      prompt cfg.
Proof.
  unfold main_start, mbind, proc_bind.
  destruct (lift (main_args opts operands) s) as [s1 r1] eqn:H1.
  apply lift_inv in H1 as (w1 & H1 & ->).
  destruct r1 as [[[l i] o]| |]; [|done..]. intros H.
  pose proof (main_args_outcome _ _ _ _ _ H1) as [(_ & _ & Htty) _].
  apply main_args_ret in H1
    as (p & t & wp & Hp & Ht & _ & _ & _ & Hpr & Hlen & Hti & _).
  apply main_setup_ret in H
    as (_ & _ & _ & _ & _ & _ & -> & Hout & _).
  exists p, t, wp, w1. simpl in *.
  rewrite Hout, Htty, <- Hpr, <- Hti. done.
Qed.

Lemma string_length_app (a b : string) :
  String.length (a +:+ b) = (String.length a + String.length b)%nat.
Proof. induction a as [|c a IH]; simpl; [done|]. by rewrite IH. Qed.

Lemma substring_fits n : ∀ s,
  (String.length s ≤ n)%nat → String.substring 0 n s = s.
Proof.
  induction n as [|n IH]; intros [|a s]; simpl; try done; try lia.
  intros Hn. rewrite IH; [done|lia].
Qed.

Lemma string_app_assoc (a b c : string) : a +:+ (b +:+ c) = (a +:+ b) +:+ c.
Proof.
  induction a as [|x a IH]; [done|].
  change (String x (a +:+ (b +:+ c)) = String x ((a +:+ b) +:+ c)).
  by f_equal.
Qed.

Lemma string_app_empty (a : string) : a +:+ "" = a.
Proof.
  induction a as [|x a IH]; [done|].
  change (String x (a +:+ "") = String x a). by f_equal.
Qed.

(** The command of the feed when it fits the array. *)
Lemma tail_command_fits history_len out_file (filter : bool) :
  let cmd := "exec tail -n " +:+ zd history_len +:+ " -f " +:+ out_file
               +:+ (if filter then " | ./.filter" else "") in
  (String.length cmd ≤ Z.to_nat (BUFSIZ - 1))%nat →
  tail_command history_len out_file filter = cmd.
Proof.
  intros cmd Hn. subst cmd. unfold tail_command, snprintf_buf.
  rewrite !string_app_assoc in Hn. rewrite !string_app_assoc.
  rewrite string_length_app in Hn.
  rewrite (substring_fits _ (_ +:+ out_file)) by lia.
  destruct filter.
  - apply substring_fits. rewrite string_length_app. lia.
  - by rewrite string_app_empty.
Qed.

(** X21. The line file is the argument of the last -i option, else the
    file in of the directory operand, else ./in.  The feed is one new
    child: tail on the file of the last -o option, else on out in that
    directory, with the count of the last -n option or 5, and with .filter
    behind it when that can be run (for a command that fits the array).  No
    file is changed. *)
Theorem main_start_files opts operands s s' cfg :
  main_start opts operands s = (s', Ret cfg) →
  let dir := hd "." operands in
  let w := m_world s in
  let count := from_option (λ a, (strtoull a).1) 5 (last_arg 110 opts) in
  let out_file := from_option id (dir +:+ "/out") (last_arg 111 opts) in
  let cmd := "exec tail -n " +:+ zd count +:+ " -f " +:+ out_file
               +:+ (if m_filter s then " | ./.filter" else "") in
  (String.length cmd ≤ Z.to_nat (BUFSIZ - 1))%nat →
  in_file cfg = from_option id (dir +:+ "/in") (last_arg 105 opts) ∧
  w_procs (m_world s') = <[fresh_key (w_procs w) := (cmd, [])]> (w_procs w) ∧
  w_fs (m_world s') = w_fs w.
Proof.
  unfold main_start, mbind, proc_bind.
  destruct (lift (main_args opts operands) s) as [s1 r1] eqn:H1.
  apply lift_inv in H1 as (w1 & H1 & ->).
  destruct r1 as [[[l i] o]| |]; [|done..]. intros H Hn.
  pose proof (tail_command_fits _ _ _ Hn) as Hcmd. cbv zeta in Hcmd.
  pose proof (main_args_outcome _ _ _ _ _ H1) as [(Hfs & Hprocs & _) _].
  apply main_args_ret in H1
    as (p & t & wp & _ & _ & -> & -> & Hh & _).
  apply main_setup_ret in H
    as (_ & _ & _ & _ & _ & _ & -> & _ & Hpr & Hfs' & _).
  simpl in Hpr, Hfs' |- *. by rewrite Hpr, Hfs', Hprocs, Hh, Hcmd.
Qed.

Lemma last_arg_is_Some ch opts :
  is_Some (last_arg ch opts) ↔ ∃ a, (ch, a) ∈ opts.
Proof.
  induction opts as [|[c a] opts IH]; simpl.
  - split; [by intros [? ?]|]. intros [a Ha]. by apply elem_of_nil in Ha.
  - destruct (last_arg ch opts) as [a'|] eqn:E.
    + split; [|eauto]. intros _.
      destruct (proj1 IH) as [b Hb]; [eauto|].
      exists b. by right.
    + destruct (Z.eqb_spec c ch) as [->|Hne].
      * split; [|eauto]. intros _. exists a. by left.
      * split; [by intros [? ?]|].
        intros [b Hb]. apply elem_of_cons in Hb as [[= ? ?]|Hb]; [done|].
        apply IH. eauto.
Qed.

(** X22. The bell of the feed is on unless the option -a is given, an
    empty line is sent only when the option -e is given, and no option
    changes the file .bellmatch of the patterns. *)
Theorem main_start_flags opts operands s s' cfg :
  main_start opts operands s = (s', Ret cfg) →
  (bell_flag cfg = false ↔ ∃ a, (97, a) ∈ opts) ∧
  (empty_line cfg = true ↔ ∃ a, (101, a) ∈ opts) ∧
  bell_file cfg = ".bellmatch".
Proof.
  unfold main_start, mbind, proc_bind.
  destruct (lift (main_args opts operands) s) as [s1 r1] eqn:H1.
  apply lift_inv in H1 as (w1 & H1 & ->).
  destruct r1 as [[[l i] o]| |]; [|done..]. intros H.
  apply main_args_ret in H1
    as (p & t & wp & _ & _ & _ & _ & _ & _ & _ & _ & Hb & He & Hf).
  apply main_setup_ret in H as (_ & _ & _ & _ & _ & _ & -> & _).
  simpl. rewrite Hb, He, Hf, <- !last_arg_is_Some.
  destruct (last_arg 97 opts), (last_arg 101 opts); simpl;
    repeat split; try done; try (by intros [? ?]); eauto.
Qed.

(** X23. When stdout is no terminal, ioctl fails unnoticed in [sigwinch]
    and the width of [winsize] stays the 0 of the start: a redraw with that
    width divides by it. *)
Theorem start_without_terminal_on_stdout opts operands s s' cfg inp sl w :
  main_start opts operands s = (s', Ret cfg) →
  m_stdout s = None →
  ws_col (winsize s) = 0 →
  in_ws_col inp = ws_col (winsize s') →
  is_Some (cstr (buf sl)) →
  ws_col (winsize s') = 0 ∧ (redraw cfg inp sl w).2 = Undef.
Proof.
  unfold main_start, mbind, proc_bind.
  destruct (lift (main_args opts operands) s) as [s1 r1] eqn:H1.
  apply lift_inv in H1 as (w1 & H1 & ->).
  destruct r1 as [[[l i] o]| |]; [|done..]. intros H.
  apply main_setup_ret in H as (_ & _ & _ & _ & _ & Hw & _).
  simpl in Hw. intros Hout H0 Hcol [str Hstr].
  rewrite Hw, Hout in Hcol |- *. simpl in *. rewrite H0 in Hcol.
  split; [done|].
  unfold redraw, mbind, io_bind, put, must. rewrite Hstr, Hcol. done.
Qed.

(** X24. With a terminal on stdout, the width of the redraw after the
    start is the width of that terminal, whatever [winsize] held. *)
Theorem start_takes_width_of_terminal opts operands s s' cfg z :
  main_start opts operands s = (s', Ret cfg) →
  m_stdout s = Some z →
  winsize s' = z.
Proof.
  unfold main_start, mbind, proc_bind.
  destruct (lift (main_args opts operands) s) as [s1 r1] eqn:H1.
  apply lift_inv in H1 as (w1 & H1 & ->).
  destruct r1 as [[[l i] o]| |]; [|done..]. intros H.
  apply main_setup_ret in H as (_ & _ & _ & _ & _ & Hw & _).
  simpl in Hw. intros Hout. by rewrite Hw, Hout.
Qed.

(** ** The command of the feed *)

Lemma substring_app_full n : ∀ s t,
  (n ≤ String.length s)%nat →
  String.substring 0 n (s +:+ t) = String.substring 0 n s.
Proof.
  induction n as [|n IH]; intros [|a s] t; simpl; try done; try lia.
  - by destruct t.
  - intros Hn. rewrite IH by lia. done.
Qed.

Lemma substring_idemp n : ∀ s,
  String.substring 0 n (String.substring 0 n s) = String.substring 0 n s.
Proof.
  induction n as [|n IH]; intros [|a s]; simpl; try done.
  by rewrite IH.
Qed.

Lemma substring_length_full n : ∀ s,
  (n ≤ String.length s)%nat → String.length (String.substring 0 n s) = n.
Proof.
  induction n as [|n IH]; intros [|a s]; simpl; try done; try lia.
  intros Hn. rewrite IH; lia.
Qed.

(** X25. When the tail command alone fills the array, because of a long
    path of the file, the command of the feed is its first BUFSIZ - 1 bytes:
    it is cut there, and .filter is dropped, without notice. *)
Theorem tail_command_cut history_len out_file filter :
  (Z.to_nat (BUFSIZ - 1)
     ≤ String.length ("exec tail -n " +:+ zd history_len +:+ " -f "
                        +:+ out_file))%nat →
  tail_command history_len out_file filter =
  String.substring 0 (Z.to_nat (BUFSIZ - 1))
    ("exec tail -n " +:+ zd history_len +:+ " -f " +:+ out_file).
Proof.
  intros Hn. unfold tail_command, snprintf_buf.
  destruct filter; [|done].
  rewrite substring_app_full.
  - apply substring_idemp.
  - by rewrite substring_length_full.
Qed.

End Lchat.

(** * Examples on concrete inputs *)

(** Scenario 1 of the spec from the start: h, i and the return key typed into
    a fresh buffer.  The file [in] receives "hi" and a newline through one
    open, write and close; the return key, handed on to the engine of the
    spec after the reset, is then the one byte of the line. *)
Lemma typing_hi_and_return :
  match main_loop 8192 grant_all grep_hi ex_cfg
                  [Input 1 0 104 None 80; Input 1 0 105 None 80; ex_return]
                  (LoopState (sl_init 8192) 0) ex_world with
  | (w', Ret st') =>
      f_data <$> w_fs w' !! "./in" = Some [104; 105; 10] ∧
      w_trace w' = [EvOpen "./in" 3; EvWrite 3 [104; 105; 10]; EvClose 3] ∧
      w_fds w' = ∅ ∧
      text (st_sl st') = [13]
  | _ => False
  end.
Proof. vm_compute. repeat split. Qed.

(** Scenario 1 of the spec: the return key on the line "hi" appends the
    three bytes h, i, newline to the file [in]. *)
Lemma commit_appends_line_and_resets_witness :
  let line := [104; 105; 10] in
  let w' := World (<["./in" := File line true true]> (w_fs ex_world)) ∅ ∅ []
                  [EvOpen "./in" 3; EvWrite 3 line; EvClose 3] in
  ∃ sl1,
    line_output ex_hi "./in" ex_world = (w', Ret sl1) ∧
    handle_keyboard grant_all ex_cfg ex_return ex_hi ex_world =
      (w', match sl_keystroke grant_all (sl_reset sl1) 13 with
           | Some sl2 => Ret (Fall sl2)
           | None => Exit EXIT_FAILURE
           end) ∧
    len (sl_reset sl1) = 0 ∧ cstr (buf (sl_reset sl1)) = Some [].
Proof.
  destruct (commit_appends_line_and_resets grant_all ex_cfg ex_return ex_hi
              ex_world (File [] true true))
    as (sl1 & H1 & H2 & H3 & _ & _ & _ & _ & _ & H4).
  - reflexivity.
  - reflexivity.
  - left. discriminate.
  - vm_compute. split; [discriminate|reflexivity].
  - reflexivity.
  - reflexivity.
  - reflexivity.
  - exists sl1. split; [exact H1|]. split; [exact H2|].
    split; [exact H3|exact H4].
Defined.

(** The same commit: the return key goes on to the reset struct. *)
Lemma commit_then_keystroke_13_witness :
  let line := [104; 105; 10] in
  let w1 := World (<["./in" := File line true true]> (w_fs ex_world)) ∅ ∅ []
                  [EvOpen "./in" 3; EvWrite 3 line; EvClose 3] in
  let sl1 := set_buf ex_hi [104; 105; 10; 0; 0; 0; 0; 0] in
  line_output ex_hi (in_file ex_cfg) ex_world = (w1, Ret sl1) ∧
  handle_keyboard grant_all ex_cfg ex_return ex_hi ex_world =
    (w1, match sl_keystroke grant_all (sl_reset sl1) 13 with
         | Some sl2 => Ret (Fall sl2)
         | None => Exit EXIT_FAILURE
         end).
Proof.
  intros line w1 sl1.
  assert (line_output ex_hi (in_file ex_cfg) ex_world = (w1, Ret sl1)) as H
    by (vm_compute; reflexivity).
  split; [exact H|].
  apply (commit_then_keystroke_13 grant_all ex_cfg ex_return ex_hi ex_world
           w1 sl1);
    [reflexivity|reflexivity|left; discriminate|exact H].
Defined.

(** BUFSIZ of the GNU C library. *)
Lemma BUFSIZ_8192 : 256 <= 8192.
Proof. done. Qed.

(** The return key on a fresh buffer: the loop goes on to the next wakeup. *)
Lemma empty_return_redraws_and_loops_witness :
  let st := LoopState (sl_init 8192) 0 in
  flag_set (in_revents0 ex_return) POLLIN = true ∧
  len (st_sl st) = 0 ∧ empty_line ex_cfg = false ∧
  ∃ pre w2 lo,
    loop_preamble (st_loverhang st) ex_world = (emit ex_world pre, Ret ()) ∧
    redraw ex_cfg ex_return (st_sl st) (emit ex_world pre) = (w2, Ret lo) ∧
    iteration 8192 grant_all grep_hi ex_cfg ex_return st ex_world =
      (w2, Ret (Next, LoopState (st_sl st) lo)) ∧
    main_loop 8192 grant_all grep_hi ex_cfg [ex_return; ex_hangup] st ex_world =
      main_loop 8192 grant_all grep_hi ex_cfg [ex_hangup]
                (LoopState (st_sl st) lo) w2 ∧
    w_fs w2 = w_fs ex_world ∧ w_fds w2 = w_fds ex_world ∧
    w_trace w2 = w_trace ex_world.
Proof.
  intros st. split; [reflexivity|]. split; [reflexivity|].
  split; [reflexivity|].
  apply (empty_return_redraws_and_loops 8192 grant_all grep_hi ex_cfg
           ex_return st ex_world [] [ex_hangup]);
    reflexivity.
Defined.

(** Scenario 2 of the spec: the two bytes of U+00E9 make one rune of two
    bytes. *)
Lemma utf8_feed_counts_runes_and_bytes_witness :
  ∃ sl, sl_feed grant_all (sl_init 8192) [195; 169] = Some sl ∧
        rlen sl = 1 ∧ blen sl = 2.
Proof.
  apply (utf8_feed_counts_runes_and_bytes 8192 grant_all [233]).
  - reflexivity.
  - constructor; [left; lia|constructor].
  - constructor; [intros [H|[H|H]]; discriminate H|constructor].
Defined.

(** A hangup of the feed ends the process with success, a read of no byte
    with failure. *)
Lemma feed_end_exit_status_witness :
  let st := LoopState (sl_init 8192) 0 in
  let w1 := emit ex_world CLEAR_LINE in
  main_loop 8192 grant_all grep_hi ex_cfg [ex_hangup] st ex_world
    = (w1, Exit EXIT_SUCCESS) ∧
  main_loop 8192 grant_all grep_hi ex_cfg [Input 0 1 0 (Some []) 80] st
            ex_world
    = (w1, Exit EXIT_FAILURE).
Proof.
  intros st w1. split.
  - apply (proj1 (feed_end_exit_status 8192 grant_all grep_hi ex_cfg
                    ex_hangup [] st ex_world) w1 (sl_init 8192));
      reflexivity.
  - apply (proj1 (feed_end_exit_status 8192 grant_all grep_hi ex_cfg
                    (Input 0 1 0 (Some []) 80) [] st ex_world)
                 w1 (sl_init 8192));
      reflexivity.
Defined.


(** The text "hi" of the feed is what [bell_match] and grep receive. *)
Lemma bell_receives_string_of_read_witness :
  let got := [104; 105] in
  let sent := [104; 105] in
  (∃ arg,
     cstr arg = Some sent ∧
     handle_feed 8192 grep_hi ex_cfg ex_feed ex_world_bell =
       (m ← bell_match 8192 grep_hi arg (bell_file ex_cfg);
        if (m : bool) then put [7] else mret ()) (emit ex_world_bell got)) ∧
  (∀ f, w_fs ex_world_bell !! bell_file ex_cfg = Some f →
        f_readable f = true →
        let cmd := snprintf_buf 8192 ("exec grep -qf " +:+ bell_file ex_cfg) in
        let status := grep_hi cmd (w_fs ex_world_bell) sent in
        handle_feed 8192 grep_hi ex_cfg ex_feed ex_world_bell =
          (World (w_fs ex_world_bell) (w_fds ex_world_bell)
                 (w_procs ex_world_bell)
                 (w_tty ex_world_bell ++ got
                    ++ (if status =? 0 then [7] else []))
                 (w_trace ex_world_bell ++ [EvRun cmd sent status]),
           Ret ())) ∧
  sent `prefix_of` got ∧
  Forall (λ b, b ≠ 0) sent ∧
  (2 < 8192 → Forall (λ b, b ≠ 0) got → sent = got) ∧
  (2 = 8192 →
   Forall (λ b, b ≠ 0) (take (Z.to_nat (8192 - 1)) got) →
   sent = take (Z.to_nat (8192 - 1)) got).
Proof.
  apply (bell_receives_string_of_read 8192 BUFSIZ_8192 grep_hi ex_cfg ex_feed
           [104; 105] ex_world_bell); try reflexivity. discriminate.
Defined.

(** The prompt and "hi" on a terminal of three columns: one wrapped row and
    the newline. *)
Lemma redraw_overhang_and_wrap_newline_witness :
  ∃ nl tail,
    redraw ex_cfg (Input 0 0 0 None 3) ex_hi ex_world =
      (emit ex_world ([62] ++ [104; 105] ++ nl ++ tail), Ret (3 `div` 3)) ∧
    (nl = [10] ∨ nl = []) ∧
    (nl = [10] ↔ 3 ≠ 0 ∧ 3 `mod` 3 = 0) ∧
    (tail = [] ∨ head tail = Some 13).
Proof.
  apply (redraw_overhang_and_wrap_newline ex_cfg (Input 0 0 0 None 3) ex_hi
           ex_world [104; 105]); [reflexivity|reflexivity|].
  vm_compute. split; [discriminate|reflexivity].
Defined.


(** A directory without prompt and title files: the defaults. *)
Lemma unreadable_config_falls_back_witness :
  read_file_line 8192 grant_all ".prompt" ex_world = (ex_world, Ret None) ∧
  main_config 8192 grant_all ex_world =
    (ex_world,
     Ret (Config false true ".bellmatch" (bytes_of_string ">") 1 "./in", None)).
Proof.
  pose proof (unreadable_config_falls_back 8192 grant_all ex_world)
    as (H1 & H2 & _).
  split.
  - apply H1. exact I.
  - apply H2; exact I.
Defined.

(** C2 fails as stated: after the return key on an empty buffer, with empty
    lines not to be sent, the loop has not ended; it takes the next key, the
    letter a, into the line. *)
Lemma empty_return_does_not_end_loop :
  let st := LoopState (sl_init 8192) 0 in
  flag_set (in_revents0 ex_return) POLLIN = true ∧
  in_key ex_return = 13 ∧
  len (st_sl st) = 0 ∧
  empty_line ex_cfg = false ∧
  match main_loop 8192 grant_all grep_hi ex_cfg
                  [ex_return; Input 1 0 97 None 80] st ex_world with
  | (w', Ret st') => w_fs w' = w_fs ex_world ∧ text (st_sl st') = [97]
  | (_, Exit _) | (_, Undef) => False
  end.
Proof. vm_compute. repeat split. Qed.

(** C3 fails as stated: the codepoint U+001B, a well-formed sequence of one
    byte, leaves no rune and no byte in a fresh buffer. *)
Lemma escape_codepoint_leaves_no_rune :
  scalar_value 27 ∧
  ∃ sl,
    sl_feed grant_all (sl_init 8192) (concat (utf8_encode <$> [27]))
      = Some sl ∧
    rlen sl = 0 ∧ blen sl = 0 ∧
    rlen sl ≠ Z.of_nat (length [27]) ∧
    blen sl ≠ Z.of_nat (length (concat (utf8_encode <$> [27]))).
Proof.
  split; [left; lia|].
  eexists. split; [vm_compute; reflexivity|].
  repeat split; try reflexivity; discriminate.
Qed.

(** C4 fails as stated: a hangup of the feed ends the process with
    EXIT_SUCCESS. *)
Lemma feed_hangup_exits_with_success :
  flag_set (in_revents1 ex_hangup) POLLHUP = true ∧
  snd (main_loop 8192 grant_all grep_hi ex_cfg [ex_hangup]
                 (LoopState (sl_init 8192) 0) ex_world)
    = Exit EXIT_SUCCESS ∧
  EXIT_SUCCESS ≠ EXIT_FAILURE.
Proof. repeat split; try reflexivity. discriminate. Qed.

(** C9 fails as stated: a prompt file that may be read and holds no byte ends
    the process with EXIT_FAILURE, in [read_file_line] after fgets has
    returned NULL. *)
Lemma empty_prompt_file_exits :
  let w := World {[ ".prompt" := File [] true true ]} ∅ ∅ [] [] in
  sys_access ".prompt" w = (w, Ret 0) ∧
  snd (read_file_line 8192 grant_all ".prompt" w) = Exit EXIT_FAILURE ∧
  snd (main_config 8192 grant_all w) = Exit EXIT_FAILURE.
Proof. repeat split; vm_compute; reflexivity. Qed.

(** C6 fails as stated: a read of four bytes, fewer than BUFSIZ, with a
    NUL among them.  grep receives the two bytes before the NUL and the bell
    rings on them, while the four bytes read are no match. *)
Lemma nul_in_read_cuts_bell_input :
  let got := [104; 105; 0; 120] in
  let cmd := "exec grep -qf .bellmatch" in
  Z.of_nat (length got) < 8192 ∧
  handle_feed 8192 grep_hi ex_cfg (Input 0 1 0 (Some got) 80) ex_world_bell =
    (World (w_fs ex_world_bell) ∅ ∅ (got ++ [7])
           [EvRun cmd [104; 105] 0],
     Ret ()) ∧
  [104; 105] ≠ got ∧
  grep_hi cmd (w_fs ex_world_bell) got ≠ 0.
Proof.
  split; [reflexivity|]. split; [vm_compute; reflexivity|].
  split; discriminate.
Qed.


(** * Examples of the further properties *)

(** ** The first line of a file *)

Lemma read_file_line_first_line_witness :
  read_file_line 8192 grant_all ".prompt" ex_world_prompt =
    (World (w_fs ex_world_prompt) ∅ ∅ []
           [EvOpen ".prompt" 3; EvClose 3],
     Ret (Some [36; 32])).
Proof.
  apply (read_file_line_first_line 8192 BUFSIZ_8192 grant_all ".prompt"
           (File [36; 32; 10; 120] true false) ex_world_prompt [36; 32] [120]);
    try reflexivity.
  repeat constructor; discriminate.
Defined.

Lemma read_file_line_result_bounds_witness :
  ∃ f, w_fs ex_world_prompt !! ".prompt" = Some f ∧
       [36; 32] `prefix_of` f_data f ∧
       Forall (λ b, b ≠ 10 ∧ b ≠ 0) [36; 32] ∧
       Z.of_nat (length [36; 32]) <= 8192 - 1.
Proof.
  apply (read_file_line_result_bounds 8192 BUFSIZ_8192 grant_all ".prompt"
           ex_world_prompt
           (World (w_fs ex_world_prompt) ∅ ∅ []
                  [EvOpen ".prompt" 3; EvClose 3])).
  vm_compute. reflexivity.
Defined.

Lemma read_file_line_leaves_world_witness :
  let w' := World (w_fs ex_world_prompt) ∅ ∅ []
                  [EvOpen ".prompt" 3; EvClose 3] in
  w_fs w' = w_fs ex_world_prompt ∧ w_fds w' = w_fds ex_world_prompt ∧
  w_procs w' = w_procs ex_world_prompt ∧ w_tty w' = w_tty ex_world_prompt.
Proof.
  intros w'.
  apply (read_file_line_leaves_world 8192 BUFSIZ_8192 grant_all ".prompt"
           ex_world_prompt w' (Some [36; 32])).
  vm_compute. reflexivity.
Defined.

(** ** The loop *)

(** The return key on the line "hi" without the file in. *)
Lemma commit_without_file_exits_witness :
  ∃ pre,
    loop_preamble 0 ex_world_none = (emit ex_world_none pre, Ret ()) ∧
    main_loop 8192 grant_all grep_hi ex_cfg [ex_return; ex_hangup]
              (LoopState ex_hi 0) ex_world_none =
      (emit ex_world_none pre, Exit EXIT_FAILURE).
Proof.
  apply (commit_without_file_exits 8192 grant_all grep_hi ex_cfg ex_return
           [ex_hangup] (LoopState ex_hi 0) ex_world_none).
  - reflexivity.
  - reflexivity.
  - left. discriminate.
  - left. reflexivity.
Defined.

(** The bytes "hi", a NUL and "x" from the feed: all of them reach the
    terminal, grep sees "hi" and the bell rings. *)
Lemma feed_nul_hides_rest_from_grep_witness :
  let cmd := "exec grep -qf .bellmatch" in
  handle_feed 8192 grep_hi ex_cfg (Input 0 1 0 (Some [104; 105; 0; 120]) 80)
              ex_world_bell =
    (World (w_fs ex_world_bell) ∅ ∅ [104; 105; 0; 120; 7]
           [EvRun cmd [104; 105] 0],
     Ret ()).
Proof.
  apply (feed_nul_hides_rest_from_grep 8192 BUFSIZ_8192 grep_hi ex_cfg
           (Input 0 1 0 (Some [104; 105; 0; 120]) 80) [104; 105; 0; 120]
           (File [104; 10] true false) ex_world_bell [104; 105] [120]);
    try reflexivity.
  repeat constructor; discriminate.
Defined.

Lemma BUFSIZ_256 : 256 <= 256.
Proof. done. Qed.

(** A read that fills an array of 256 bytes with the letter h: grep gets
    255 of them. *)
Lemma feed_full_read_withholds_last_byte_witness :
  let cmd := "exec grep -qf .bellmatch" in
  handle_feed 256 grep_hi ex_cfg
              (Input 0 1 0 (Some (replicate 256 104)) 80) ex_world_bell =
    (World (w_fs ex_world_bell) ∅ ∅ (replicate 256 104)
           [EvRun cmd (replicate 255 104) 1],
     Ret ()).
Proof.
  apply (feed_full_read_withholds_last_byte 256 BUFSIZ_256 grep_hi ex_cfg
           (Input 0 1 0 (Some (replicate 256 104)) 80) (replicate 256 104)
           (File [104; 10] true false) ex_world_bell);
    try reflexivity.
  apply Forall_take, Forall_replicate. discriminate.
Defined.

Lemma feed_without_bell_runs_nothing_witness :
  handle_feed 8192 grep_hi (Config false false ".bellmatch" [62] 1 "./in")
              ex_feed ex_world_bell =
    (emit ex_world_bell [104; 105], Ret ()).
Proof.
  apply (feed_without_bell_runs_nothing 8192 BUFSIZ_8192 grep_hi
           (Config false false ".bellmatch" [62] 1 "./in") ex_feed
           [104; 105] ex_world_bell);
    try reflexivity.
  discriminate.
Defined.

(** A wakeup without event on a fresh line. *)
Lemma idle_wakeup_only_redraws_witness :
  let st := LoopState (sl_init 8192) 0 in
  let inp := Input 0 0 0 None 80 in
  ∃ pre w2 lo,
    loop_preamble (st_loverhang st) ex_world = (emit ex_world pre, Ret ()) ∧
    redraw ex_cfg inp (st_sl st) (emit ex_world pre) = (w2, Ret lo) ∧
    main_loop 8192 grant_all grep_hi ex_cfg [inp; ex_hangup] st ex_world =
      main_loop 8192 grant_all grep_hi ex_cfg [ex_hangup]
                (LoopState (st_sl st) lo) w2 ∧
    w_fs w2 = w_fs ex_world ∧ w_fds w2 = w_fds ex_world ∧
    w_procs w2 = w_procs ex_world ∧ w_trace w2 = w_trace ex_world.
Proof.
  intros st inp.
  apply (idle_wakeup_only_redraws 8192 grant_all grep_hi ex_cfg inp st
           ex_world [] [ex_hangup]);
    reflexivity.
Defined.

(** The line "hi" is sent and the feed hangs up: the file in has grown by
    the line, and no descriptor and no child is left. *)
Lemma main_loop_only_appends_to_in_file_witness :
  let run := main_loop 8192 grant_all grep_hi ex_cfg [ex_return; ex_hangup]
                       (LoopState ex_hi 0) ex_world in
  run.2 = Exit EXIT_SUCCESS ∧
  appended_to "./in" (w_fs ex_world) (w_fs run.1).
Proof.
  intros run. split; [vm_compute; reflexivity|].
  apply (main_loop_only_appends_to_in_file 8192 grant_all grep_hi ex_cfg
           [ex_return; ex_hangup] (LoopState ex_hi 0) ex_world run.1 run.2).
  vm_compute. reflexivity.
Defined.

Lemma main_loop_leaks_no_handle_witness :
  let run := main_loop 8192 grant_all grep_hi ex_cfg
                       [ex_feed; ex_return; ex_hangup]
                       (LoopState ex_hi 0) ex_world in
  run.2 = Exit EXIT_SUCCESS ∧
  w_fds run.1 = w_fds ex_world ∧ w_procs run.1 = w_procs ex_world.
Proof.
  intros run. split; [vm_compute; reflexivity|].
  apply (main_loop_leaks_no_handle 8192 grant_all grep_hi ex_cfg
           [ex_feed; ex_return; ex_hangup] (LoopState ex_hi 0) ex_world
           run.1 run.2).
  - vm_compute. reflexivity.
  - right. vm_compute. reflexivity.
Defined.

(** grep on "hi" with the pattern file of the example. *)
Lemma bell_match_leaves_world_witness :
  let run := bell_match 8192 grep_hi [104; 105; 0] ".bellmatch"
                        ex_world_bell in
  run.2 = Ret true ∧
  w_fs run.1 = w_fs ex_world_bell ∧
  w_tty run.1 = w_tty ex_world_bell ∧
  ∀ m, run.2 = Ret m →
       w_procs run.1 = w_procs ex_world_bell ∧
       (w_trace run.1 = w_trace ex_world_bell ∧ m = true ∨
        ∃ cmd sent status,
          w_trace run.1 = w_trace ex_world_bell ++ [EvRun cmd sent status] ∧
          m = (status =? 0)).
Proof.
  intros run. split; [vm_compute; reflexivity|].
  apply (bell_match_leaves_world 8192 grep_hi [104; 105; 0] ".bellmatch"
           ex_world_bell run.1 run.2).
  vm_compute. reflexivity.
Defined.

(** ** The start of [main] *)

Lemma raw_mode_flags_witness :
  let r := raw_mode ex_term in
  Z.land (c_lflag r) ECHO = 0 ∧
  Z.land (c_lflag r) ICANON = 0 ∧
  Z.land (c_iflag r) ICRNL = 0 ∧
  Z.land (c_iflag r) IXON = 0 ∧
  Z.land (c_cflag r) CSIZE = CS8 ∧
  Z.land (c_cflag r) PARENB = 0 ∧
  Z.land (c_lflag r) ISIG = Z.land (c_lflag ex_term) ISIG ∧
  c_oflag r = c_oflag ex_term ∧
  c_cc r !! VMIN = Some 1 ∧ c_cc r !! VTIME = Some 0.
Proof.
  apply (raw_mode_flags ex_term). apply Nat.ltb_lt. vm_compute. reflexivity.
Defined.

(** lchat without option on the terminal of the example; the feed hangs up
    at the first wakeup. *)
Lemma main_exit_restores_terminal_witness :
  let run := main 8192 grant_all grep_hi dec_strtoull [] [] [ex_hangup]
                  ex_machine in
  run.2 = Exit EXIT_SUCCESS ∧ m_stdin run.1 = m_stdin ex_machine.
Proof.
  intros run. split; [vm_compute; reflexivity|].
  apply (main_exit_restores_terminal 8192 grant_all grep_hi dec_strtoull
           [] [] [ex_hangup] ex_machine run.1 EXIT_SUCCESS).
  - reflexivity.
  - vm_compute. reflexivity.
Defined.

(** The same after a wakeup without event. *)
Lemma main_loop_runs_in_raw_mode_witness :
  let run := main 8192 grant_all grep_hi dec_strtoull [] []
                  [Input 0 0 0 None 80] ex_machine in
  ∃ t, m_stdin ex_machine = Some t ∧ m_stdin run.1 = Some (raw_mode t) ∧
       origin_term run.1 = t ∧ m_atexit run.1 = true.
Proof.
  intros run.
  apply (main_loop_runs_in_raw_mode 8192 grant_all grep_hi dec_strtoull
           [] [] [Input 0 0 0 None 80] ex_machine run.1
           (LoopState (sl_init 8192) 0)).
  - reflexivity.
  - vm_compute. reflexivity.
Defined.

(** lchat with its stdin on a pipe. *)
Lemma main_without_terminal_fails_witness :
  let run := main 8192 grant_all grep_hi dec_strtoull [] [] [ex_hangup]
                  ex_machine_piped in
  run.2 = Exit EXIT_FAILURE ∧ same_machine ex_machine_piped run.1 ∧
  quiet (m_world ex_machine_piped) (m_world run.1).
Proof.
  intros run.
  apply (main_without_terminal_fails 8192 BUFSIZ_8192 grant_all grep_hi
           dec_strtoull [] [] [ex_hangup] ex_machine_piped run.1 run.2).
  - reflexivity.
  - reflexivity.
  - vm_compute. reflexivity.
Defined.

(** lchat -h. *)
Lemma usage_error_exits_before_terminal_witness :
  let run := main 8192 grant_all grep_hi dec_strtoull [(104, "")] []
                  [ex_hangup] ex_machine in
  run.2 = Exit EXIT_FAILURE ∧ same_machine ex_machine run.1 ∧
  quiet (m_world ex_machine) (m_world run.1).
Proof.
  intros run.
  apply (usage_error_exits_before_terminal 8192 BUFSIZ_8192 grant_all
           grep_hi dec_strtoull [(104, "")] [] [ex_hangup] ex_machine
           run.1 run.2).
  - left. constructor. reflexivity.
  - reflexivity.
  - vm_compute. reflexivity.
Defined.

(** lchat -p "# " beside an empty prompt file. *)
Lemma empty_prompt_file_beats_option_witness :
  let s := Machine (World {[ ".prompt" := File [] true false ]} ∅ ∅ [] [])
                   (Some ex_term) (Some (Winsize 24 80)) (Some "xterm")
                   false ex_term (Winsize 0 0) false in
  (main 8192 grant_all grep_hi dec_strtoull [(112, "# ")] [] [ex_hangup] s).2
    = Exit EXIT_FAILURE.
Proof.
  intros s.
  apply (empty_prompt_file_beats_option 8192 grant_all grep_hi dec_strtoull
           [(112, "# ")] [] [ex_hangup] s (File [] true false));
    reflexivity.
Defined.

(** lchat -t chat without TERM in the environment. *)
Lemma title_without_TERM_is_undefined_witness :
  main 8192 grant_all grep_hi dec_strtoull [(116, "chat")] [] [ex_hangup]
       ex_machine_no_TERM =
    (set_world ex_machine_no_TERM ex_world, Undef).
Proof.
  apply (title_without_TERM_is_undefined 8192 grant_all grep_hi dec_strtoull
           [(116, "chat")] [] [ex_hangup] ex_machine_no_TERM ex_world
           (Locals false true ".bellmatch" 5 [62] (Some [99; 104; 97; 116]) 1
                   "." (Some "./in") (Some "./out"), "./in", "./out")).
  - vm_compute. reflexivity.
  - by eexists.
  - by eexists.
  - reflexivity.
Defined.

(** lchat -p "# " -t chat: the title sequence of xterm and the prompt. *)
Lemma main_start_prompt_witness :
  let opts := [(112, "# "); (116, "chat")] in
  let run := main_start 8192 grant_all dec_strtoull opts [] ex_machine in
  let cfg := Config false true ".bellmatch" [35; 32] 2 "./in" in
  run.2 = Ret cfg ∧
  ∃ p t w1 w2,
    read_file_line 8192 grant_all ".prompt" (m_world ex_machine)
      = (w1, Ret p) ∧
    read_file_line 8192 grant_all ".title" w1 = (w2, Ret t) ∧
    prompt cfg =
      from_option bytes_of_string (default (bytes_of_string ">") p)
                  (last_arg 112 opts) ∧
    prompt_len cfg = Z.of_nat (length (prompt cfg)) ∧
    w_tty (m_world run.1) =
      w_tty (m_world ex_machine) ++
      title_seq (from_option (λ a, Some (bytes_of_string a)) t
                             (last_arg 116 opts)) (m_TERM ex_machine) ++
      prompt cfg.
Proof.
  intros opts run cfg. split; [vm_compute; reflexivity|].
  apply (main_start_prompt 8192 BUFSIZ_8192 grant_all dec_strtoull opts []
           ex_machine run.1 cfg).
  vm_compute. reflexivity.
Defined.

(** lchat -n 20 -i /tmp/in irc, with a filter in the directory. *)
Lemma main_start_files_witness :
  let opts := [(110, "20"); (105, "/tmp/in")] in
  let s := Machine ex_world (Some ex_term) (Some (Winsize 24 80))
                   (Some "xterm") true ex_term (Winsize 0 0) false in
  let run := main_start 8192 grant_all dec_strtoull opts ["irc"] s in
  let cfg := Config false true ".bellmatch" [62] 1 "/tmp/in" in
  run.2 = Ret cfg ∧
  in_file cfg = "/tmp/in" ∧
  w_procs (m_world run.1) =
    {[ 3 := ("exec tail -n 20 -f irc/out | ./.filter", []) ]} ∧
  w_fs (m_world run.1) = w_fs ex_world.
Proof.
  intros opts s run cfg. split; [vm_compute; reflexivity|].
  apply (main_start_files 8192 BUFSIZ_8192 grant_all dec_strtoull opts
           ["irc"] s run.1 cfg).
  - vm_compute. reflexivity.
  - apply Nat.leb_le. vm_compute. reflexivity.
Defined.

(** lchat -a -e. *)
Lemma main_start_flags_witness :
  let opts := [(97, ""); (101, "")] in
  let cfg := Config true false ".bellmatch" [62] 1 "./in" in
  (main_start 8192 grant_all dec_strtoull opts [] ex_machine).2 = Ret cfg ∧
  (bell_flag cfg = false ↔ ∃ a, (97, a) ∈ opts) ∧
  (empty_line cfg = true ↔ ∃ a, (101, a) ∈ opts) ∧
  bell_file cfg = ".bellmatch".
Proof.
  intros opts cfg. split; [vm_compute; reflexivity|].
  apply (main_start_flags 8192 grant_all dec_strtoull opts [] ex_machine
           (main_start 8192 grant_all dec_strtoull opts [] ex_machine).1 cfg).
  vm_compute. reflexivity.
Defined.

(** lchat with its stdout in a file. *)
Lemma start_without_terminal_on_stdout_witness :
  let run := main_start 8192 grant_all dec_strtoull [] []
                        ex_machine_redirected in
  ws_col (winsize run.1) = 0 ∧
  (redraw ex_cfg (Input 0 0 0 None 0) (sl_init 8192) ex_world).2 = Undef.
Proof.
  intros run.
  apply (start_without_terminal_on_stdout 8192 grant_all dec_strtoull [] []
           ex_machine_redirected run.1 ex_cfg (Input 0 0 0 None 0)
           (sl_init 8192) ex_world).
  - vm_compute. reflexivity.
  - reflexivity.
  - reflexivity.
  - vm_compute. reflexivity.
  - vm_compute. by eexists.
Defined.

Lemma start_takes_width_of_terminal_witness :
  winsize (main_start 8192 grant_all dec_strtoull [] [] ex_machine).1
    = Winsize 24 80.
Proof.
  apply (start_takes_width_of_terminal 8192 grant_all dec_strtoull [] []
           ex_machine _ ex_cfg (Winsize 24 80)).
  - vm_compute. reflexivity.
  - reflexivity.
Defined.

(** An array of 256 bytes and a path of 300. *)
Lemma tail_command_cut_witness :
  tail_command 256 5 ex_long_path true =
    String.substring 0 (Z.to_nat (256 - 1))
      ("exec tail -n " +:+ zd 5 +:+ " -f " +:+ ex_long_path).
Proof.
  apply (tail_command_cut 256 5 ex_long_path true).
  apply Nat.leb_le. vm_compute. reflexivity.
Defined.
